(** * The wizard of [src/shared/wizards] (TypeScript), embedded in Rocq

    The development follows the class [Wizard] and the helpers declared next
    to it ([isValidResponse], [WizardControl], [shouldDispose]).  JavaScript
    objects that are shared and mutated (the state object handed to a step,
    the private clone of an estimator, the per-property step caches) live in
    an explicit store and are referred to by location; the collaborators
    whose code is in other files (the state machine controller, the form and
    the prompters) appear through the interface the wizard calls. *)

From stdpp Require Import gmap strings list fin_maps.
From Stdlib Require Import ZArith Lia Ascii.

#[local] Set Warnings "-register-all".

Local Open Scope Z_scope.

(** ** Control signals and JavaScript values *)

(** Modelled from the spec: the enum [ControlSignal] is declared in
    [stateController.ts]; the wizard uses the tags [Exit], [Back] and
    [Retry] and the spec gives no other. *)
Inductive ControlSignal := Retry | Exit | Back.

Global Instance ControlSignal_eq_dec : EqDecision ControlSignal.
Proof. solve_decision. Defined.

(** An instance of the class [WizardControl].  Instances are objects, so
    [===] and [Array.includes] compare them by identity: the four module
    constants are four different objects, and [OtherControl n t] is the
    [n]-th instance made elsewhere by [new WizardControl(t)]. *)
Inductive WizardControl :=
  | WIZARD_FORCE_EXIT
  | WIZARD_EXIT
  | WIZARD_BACK
  | WIZARD_RETRY
  | OtherControl (n : nat) (t : ControlSignal).

Global Instance WizardControl_eq_dec : EqDecision WizardControl.
Proof. solve_decision. Defined.

(** The [type] field given to the constructor. *)
Definition type (c : WizardControl) : ControlSignal :=
  match c with
  | WIZARD_FORCE_EXIT => Exit
  | WIZARD_EXIT => Exit
  | WIZARD_BACK => Back
  | WIZARD_RETRY => Retry
  | OtherControl _ t => t
  end.

(** Run-time values: what a prompter may answer and what the state holds.
    Plain objects keep their keys in insertion order. *)
Inductive value :=
  | VUndefined
  | VNull
  | VBool (b : bool)
  | VNum (n : Z)
  | VStr (s : string)
  | VControl (c : WizardControl)
  | VObj (fields : list (string * value)).

Definition is_undefined (v : value) : bool :=
  match v with VUndefined => true | _ => false end.

(** [v === c] for a [WizardControl] object [c]. *)
Definition same_control (c : WizardControl) (v : value) : bool :=
  match v with
  | VControl c' => bool_decide (c' = c)
  | _ => false
  end.

Definition isWizardControl (obj : value) : bool :=
  match obj with VControl _ => true | _ => false end.

Definition isValidResponse (response : value) : bool :=
  negb (is_undefined response) && negb (isWizardControl response).

Definition shouldDispose (signal : value) : bool :=
  existsb (fun c => same_control c signal)
          [WIZARD_EXIT; WIZARD_BACK; WIZARD_FORCE_EXIT].

(** ** The two lodash functions the wizard uses

    [_.set] and [_.get] address a property by a dotted path.  The model
    covers paths of plain keys over plain objects (no array indices, no
    bracket syntax). *)
Module Lodash.

Fixpoint split_dots (cur : string) (s : string) : list string :=
  match s with
  | EmptyString => [cur]
  | String c rest =>
      if Ascii.eqb c "."%char then cur :: split_dots EmptyString rest
      else split_dots (cur +:+ String c EmptyString) rest
  end.

Definition toPath (prop : string) : list string := split_dots EmptyString prop.

Fixpoint lookup_key (key : string) (fields : list (string * value)) : option value :=
  match fields with
  | [] => None
  | (k, v) :: rest => if String.eqb key k then Some v else lookup_key key rest
  end.

(** [object[key] = x]: overwrite in place, or add the key at the end. *)
Fixpoint assignValue (key : string) (x : value) (fields : list (string * value))
  : list (string * value) :=
  match fields with
  | [] => [(key, x)]
  | (k, v) :: rest =>
      if String.eqb key k then (k, x) :: rest
      else (k, v) :: assignValue key x rest
  end.

(** The loop of [baseSet]: walk the path, keep a nested value that is an
    object and replace anything else by a new empty object, assign at the
    last key. *)
Fixpoint baseSet (path : list string) (x : value) (fields : list (string * value))
  : list (string * value) :=
  match path with
  | [] => fields
  | key :: rest =>
      match rest with
      | [] => assignValue key x fields
      | _ :: _ =>
          let nested :=
            match lookup_key key fields with
            | Some (VObj fs) => fs
            | _ => []
            end in
          assignValue key (VObj (baseSet rest x nested)) fields
      end
  end.

(** [_.set(object, prop, x)]; anything that is not an object is returned
    as it is. *)
Definition set (object : value) (prop : string) (x : value) : value :=
  match object with
  | VObj fields => VObj (baseSet (toPath prop) x fields)
  | _ => object
  end.

Fixpoint baseGet (path : list string) (object : value) : value :=
  match path with
  | [] => object
  | key :: rest =>
      match object with
      | VObj fields =>
          match lookup_key key fields with
          | Some v => baseGet rest v
          | None => VUndefined
          end
      | _ => VUndefined
      end
  end.

Definition get (object : value) (prop : string) : value :=
  baseGet (toPath prop) object.

End Lodash.

(** ** Collaborators of the wizard *)

(** Objects are referred to by their location in the store. *)
Abbreviation loc := nat (only parsing).

(** [StepCache]: persistent storage per property.  [extra] holds the
    free-form keys a prompter may add. *)
Record StepCache := {
  picked : value;
  stepOffset : option (Z * Z);
  extra : list (string * value)
}.

Definition emptyCache : StepCache :=
  {| picked := VUndefined; stepOffset := None; extra := [] |}.

Global Instance StepCache_inhabited : Inhabited StepCache := populate emptyCache.
Global Instance value_inhabited : Inhabited value := populate VUndefined.

(** The closure returned by [createStepEstimator]: it captures the location
    of its private clone of the state and the property it is bound to. *)
Record StepEstimator := {
  est_state : loc;
  est_prop : string
}.

(** A step function is a closure, compared by identity by the controller:
    the bound step of a property (made once per property) or the exit
    step. *)
Inductive StepFunction :=
  | BoundStepFn (prop : string)
  | ExitStepFn.

Global Instance StepFunction_eq_dec : EqDecision StepFunction.
Proof. solve_decision. Defined.

Abbreviation Branch := (list StepFunction) (only parsing).

Module Prompter.

(** The argument of [configure]. *)
Record Options := {
  cache : loc;
  stepEstimator : StepEstimator;
  steps : Z * Z                      (* current, total *)
}.

(** What the blocking [promptControl] leaves behind when it settles: the
    answer, the prompter's own [recentItem] and [totalSteps], and the
    cache object it was configured with, which it may have written to. *)
Record Outcome := {
  answer : value;
  recentItem_after : value;
  totalSteps_after : Z;
  cache_after : StepCache
}.

(** Modelled from the spec: the interface [Prompter] of
    [shared/ui/prompter.ts].  A prompter is an object with the mutable
    fields [recentItem] and [totalSteps]; [configured] and [disposed]
    record the [configure] and [dispose] calls it received, and [behave]
    is what the user and the widget do during [promptControl], given what
    the prompter was configured with, its [recentItem] and the content of
    the cache. *)
Record t := {
  recentItem : value;
  totalSteps : Z;
  configured : list Options;
  disposed : nat;
  behave : list Options -> value -> StepCache -> Outcome
}.

Definition configure (o : Options) (p : t) : t :=
  {| recentItem := recentItem p; totalSteps := totalSteps p;
     configured := configured p ++ [o]; disposed := disposed p;
     behave := behave p |}.

Definition set_recentItem (v : value) (p : t) : t :=
  {| recentItem := v; totalSteps := totalSteps p;
     configured := configured p; disposed := disposed p;
     behave := behave p |}.

Definition dispose (p : t) : t :=
  {| recentItem := recentItem p; totalSteps := totalSteps p;
     configured := configured p; disposed := S (disposed p);
     behave := behave p |}.

(** [await prompter.promptControl()]: the answer, the prompter after the
    prompt and the cache after the prompt. *)
Definition promptControl (p : t) (c : StepCache) : value * t * StepCache :=
  let o := behave p (configured p) (recentItem p) c in
  (answer o,
   {| recentItem := recentItem_after o; totalSteps := totalSteps_after o;
      configured := configured p; disposed := disposed p;
      behave := behave p |},
   cache_after o).

End Prompter.

(** [StateWithCache]: the state after defaulting, with the two added
    properties [stepCache] and [estimator] (the state is taken not to have
    properties of these names itself). *)
Record StateWithCache := {
  sw_state : value;
  stepCache : loc;
  estimator : StepEstimator
}.

Abbreviation PrompterProvider := (StateWithCache -> Prompter.t) (only parsing).

Module Controller.

(** Modelled from the spec: the part of [StateMachineController] that the
    wizard reads, as it stands while one step runs. *)
Record t := {
  currentStep : Z;
  totalSteps : Z;
  containsStep : StepFunction -> bool
}.

End Controller.

Module WizardForm.

(** Modelled from the spec: the interface of [WizardForm] consumed by the
    wizard.  [canShowProperty] and [applyDefaults] read their arguments
    and change nothing. *)
Record t := {
  properties : list string;
  getPrompterProvider : string -> option PrompterProvider;
  canShowProperty : string -> value -> gset string -> bool;
  applyDefaults : value -> gset string -> value
}.

(** [new WizardForm()] *)
Definition empty : t :=
  {| properties := [];
     getPrompterProvider := fun _ => None;
     canShowProperty := fun _ _ _ => false;
     applyDefaults := fun s _ => s |}.

End WizardForm.

(** ** The wizard object *)

Record WizardOptions := {
  initForm : option WizardForm.t;
  initState : option value;
  exitPrompter : option (value -> Prompter.t);
  implicitState : option value
}.

(** What a bound step closure captures besides [this]. *)
Record BoundStep := {
  bs_provider : PrompterProvider;
  bs_stepCache : loc
}.

(** The fields of the class.  [boundSteps] is a [Map], which iterates in
    insertion order; [caches] is the table from property names to cache
    objects. *)
Record Wizard := {
  boundSteps : list (string * BoundStep);
  _form : WizardForm.t;
  caches : gmap string loc;
  stateController : Controller.t;
  _stepOffset : Z * Z;
  exitStep : option StepFunction;
  running : bool;
  _estimator : option (value -> Z);
  options : WizardOptions
}.

(** The constructor; [ctl] is the controller it creates. *)
Definition new_Wizard (opts : WizardOptions) (ctl : Controller.t) : Wizard :=
  {| boundSteps := [];
     _form := default WizardForm.empty (initForm opts);
     caches := ∅;
     stateController := ctl;
     _stepOffset := (0, 0);
     exitStep := match exitPrompter opts with
                 | Some _ => Some ExitStepFn
                 | None => None
                 end;
     running := false;
     _estimator := None;
     options := opts |}.

Definition with_stepOffset (o : Z * Z) (w : Wizard) : Wizard :=
  {| boundSteps := boundSteps w; _form := _form w; caches := caches w;
     stateController := stateController w; _stepOffset := o;
     exitStep := exitStep w; running := running w;
     _estimator := _estimator w; options := options w |}.

Definition with_caches (c : gmap string loc) (w : Wizard) : Wizard :=
  {| boundSteps := boundSteps w; _form := _form w; caches := c;
     stateController := stateController w; _stepOffset := _stepOffset w;
     exitStep := exitStep w; running := running w;
     _estimator := _estimator w; options := options w |}.

Definition with_boundSteps (b : list (string * BoundStep)) (w : Wizard) : Wizard :=
  {| boundSteps := b; _form := _form w; caches := caches w;
     stateController := stateController w; _stepOffset := _stepOffset w;
     exitStep := exitStep w; running := running w;
     _estimator := _estimator w; options := options w |}.

Definition with_controller (ctl : Controller.t) (w : Wizard) : Wizard :=
  {| boundSteps := boundSteps w; _form := _form w; caches := caches w;
     stateController := ctl; _stepOffset := _stepOffset w;
     exitStep := exitStep w; running := running w;
     _estimator := _estimator w; options := options w |}.

Definition with_running (r : bool) (w : Wizard) : Wizard :=
  {| boundSteps := boundSteps w; _form := _form w; caches := caches w;
     stateController := stateController w; _stepOffset := _stepOffset w;
     exitStep := exitStep w; running := r;
     _estimator := _estimator w; options := options w |}.

Definition with_estimator (e : option (value -> Z)) (w : Wizard) : Wizard :=
  {| boundSteps := boundSteps w; _form := _form w; caches := caches w;
     stateController := stateController w; _stepOffset := _stepOffset w;
     exitStep := exitStep w; running := running w;
     _estimator := e; options := options w |}.

(** *** Setters and getters *)

Definition set_stepOffset (offset : Z * Z) (w : Wizard) : Wizard :=
  with_stepOffset offset w.

Definition currentStep (w : Wizard) : Z :=
  fst (_stepOffset w) + Controller.currentStep (stateController w).

Definition totalSteps (w : Wizard) : Z :=
  snd (_stepOffset w) + Controller.totalSteps (stateController w).

Definition set_parentEstimator (e : value -> Z) (w : Wizard) : Wizard :=
  with_estimator (Some e) w.

(** A getter or setter either returns or throws an [Error]. *)
Inductive result (A : Type) :=
  | Ok (a : A)
  | Throw (message : string).
Arguments Ok {A} a.
Arguments Throw {A} message.

Definition get_cache (w : Wizard) : result (gmap string loc) :=
  if running w then Throw "Cannot retrieve cache while wizard is running."
  else Ok (caches w).

Definition set_cache (cache : gmap string loc) (w : Wizard) : result Wizard :=
  if running w then Throw "Cannot set cache while wizard is running."
  else Ok (with_caches cache w).

(** ** The store and the monad of wizard operations *)

(** The wizard object, the state objects and the cache objects.  A method
    of the wizard reads and writes all three. *)
Record World := {
  wizard : Wizard;
  states : gmap loc value;
  stepCaches : gmap loc StepCache
}.

Definition M (A : Type) : Type := World -> A * World.

Definition ret {A} (a : A) : M A := fun W => (a, W).

Definition bind {A B} (m : M A) (k : A -> M B) : M B :=
  fun W => let (a, W') := m W in k a W'.

Notation "'let*' x ':=' c 'in' k" := (bind c (fun x => k))
  (at level 10, x pattern, c at level 100, k at level 200).

Definition getWizard : M Wizard := fun W => (wizard W, W).

Definition modifyWizard (f : Wizard -> Wizard) : M unit :=
  fun W => (tt, {| wizard := f (wizard W); states := states W;
                   stepCaches := stepCaches W |}).

Definition readState (l : loc) : M value := fun W => (states W !!! l, W).

Definition modifyState (l : loc) (f : value -> value) : M unit :=
  fun W => (tt, {| wizard := wizard W;
                   states := <[l := f (states W !!! l)]> (states W);
                   stepCaches := stepCaches W |}).

(** A new object gets a location that is not in use. *)
Definition allocState (v : value) : M loc :=
  fun W => let l := fresh (dom (states W)) in
           (l, {| wizard := wizard W; states := <[l := v]> (states W);
                  stepCaches := stepCaches W |}).

Definition readCache (c : loc) : M StepCache := fun W => (stepCaches W !!! c, W).

Definition modifyCache (c : loc) (f : StepCache -> StepCache) : M unit :=
  fun W => (tt, {| wizard := wizard W; states := states W;
                   stepCaches := <[c := f (stepCaches W !!! c)]> (stepCaches W) |}).

Definition allocCache (v : StepCache) : M loc :=
  fun W => let c := fresh (dom (stepCaches W)) in
           (c, {| wizard := wizard W; states := states W;
                  stepCaches := <[c := v]> (stepCaches W) |}).

Fixpoint forEach {A} (l : list A) (body : A -> M unit) : M unit :=
  match l with
  | [] => ret tt
  | x :: rest => let* _ := body x in forEach rest body
  end.

Definition with_picked (v : value) (c : StepCache) : StepCache :=
  {| picked := v; stepOffset := stepOffset c; extra := extra c |}.

Definition with_cached_offset (o : option (Z * Z)) (c : StepCache) : StepCache :=
  {| picked := picked c; stepOffset := o; extra := extra c |}.

(** ** Methods of the wizard *)

Definition has_key (prop : string) (m : list (string * BoundStep)) : bool :=
  existsb (String.eqb prop) (map fst m).

(** [createBoundStep], the part that runs at binding time: the cache object
    of the property is the one in the table, or a new empty one that is put
    there. *)
Definition createBoundStep (prop : string) (provider : PrompterProvider) : M BoundStep :=
  let* w := getWizard in
  match caches w !! prop with
  | Some c => ret {| bs_provider := provider; bs_stepCache := c |}
  | None =>
      let* c := allocCache emptyCache in
      let* _ := modifyWizard (fun w => with_caches (<[prop := c]> (caches w)) w) in
      ret {| bs_provider := provider; bs_stepCache := c |}
  end.

Definition assignSteps : M unit :=
  let* w0 := getWizard in
  forEach (WizardForm.properties (_form w0)) (fun prop =>
    let* w := getWizard in
    match WizardForm.getPrompterProvider (_form w) prop with
    | Some provider =>
        if negb (has_key prop (boundSteps w)) then
          let* step := createBoundStep prop provider in
          modifyWizard (fun w => with_boundSteps (boundSteps w ++ [(prop, step)]) w)
        else ret tt
    | None => ret tt
    end).

Definition getAssigned (w : Wizard) : gset string :=
  list_to_set
    (List.filter
       (fun key => Controller.containsStep (stateController w) (BoundStepFn key))
       (map fst (boundSteps w))).

(** [resolveNextSteps(state, assigned)]: the loop over [boundSteps] carries
    the two variables it mutates, [nextSteps] and [currentlyAssigned]. *)
Definition resolveNextSteps (w : Wizard) (state : value) (assigned : gset string) : Branch :=
  fst (fold_left
         (fun (acc : Branch * gset string) (entry : string * BoundStep) =>
            let (nextSteps, currentlyAssigned) := acc in
            let targetProp := fst entry in
            if WizardForm.canShowProperty (_form w) targetProp state currentlyAssigned
               && negb (Controller.containsStep (stateController w) (BoundStepFn targetProp))
            then (nextSteps ++ [BoundStepFn targetProp], {[targetProp]} ∪ currentlyAssigned)
            else (nextSteps, currentlyAssigned))
         (boundSteps w)
         ([], assigned)).

(** [createStepEstimator(state, prop)]: [_.cloneDeep] makes a new object
    with the same content; the closure keeps its location. *)
Definition createStepEstimator (state : loc) (prop : string) : M StepEstimator :=
  let* s := readState state in
  let* clone := allocState s in
  ret {| est_state := clone; est_prop := prop |}.

(** A call of the closure returned by [createStepEstimator]. *)
Definition callEstimator (e : StepEstimator) (response : value) : M Z :=
  if negb (is_undefined response) && negb (isValidResponse response) then ret 0
  else
    let* _ := modifyState (est_state e) (fun s => Lodash.set s (est_prop e) response) in
    let* w := getWizard in
    let* s := readState (est_state e) in
    let estimate := Z.of_nat (List.length (resolveNextSteps w s {[est_prop e]})) in
    let parentEstimate :=
      match _estimator w with
      | Some f => f s
      | None => 0
      end in
    let* _ := modifyState (est_state e) (fun s => Lodash.set s (est_prop e) VUndefined) in
    ret (estimate + parentEstimate).

(** [a ?? b] on a value that may be [null] or [undefined]. *)
Definition nullish_or (a : option value) (b : value) : value :=
  match a with
  | Some VUndefined | Some VNull | None => b
  | Some v => v
  end.

(** *** [promptUser]

    The method is split at its [await]: what runs before the prompter is
    shown, the prompt itself, and what runs once it has settled. *)

Definition promptUser_before (state : StateWithCache) (provider : PrompterProvider)
    (impliedResponse : value) : M Prompter.t :=
  let prompter := provider state in
  let* w := getWizard in
  let* c := readCache (stepCache state) in
  let* _ := modifyWizard (with_stepOffset (default (_stepOffset w) (stepOffset c))) in
  let* w := getWizard in
  let* _ := modifyCache (stepCache state) (with_cached_offset (Some (_stepOffset w))) in
  let prompter :=
    Prompter.configure
      {| Prompter.cache := stepCache state;
         Prompter.stepEstimator := estimator state;
         Prompter.steps := (currentStep w, totalSteps w) |}
      prompter in
  let* c := readCache (stepCache state) in
  if negb (is_undefined (picked c)) then
    ret (Prompter.set_recentItem (picked c) prompter)
  else if negb (is_undefined impliedResponse) then
    ret (Prompter.set_recentItem impliedResponse prompter)
  else ret prompter.

(** The suspension point.  The prompter holds the cache object and may have
    written to it when the prompt settles. *)
Definition promptUser_await (state : StateWithCache) (prompter : Prompter.t)
    : M (value * Prompter.t) :=
  let* c := readCache (stepCache state) in
  let '(answer, prompter', c') := Prompter.promptControl prompter c in
  let* _ := modifyCache (stepCache state) (fun _ => c') in
  ret (answer, prompter').

Definition promptUser_after (state : StateWithCache) (answer : value)
    (prompter : Prompter.t) : M (value * Prompter.t) :=
  let* prompter :=
    if isValidResponse answer then
      let* _ := modifyCache (stepCache state) (with_picked (Prompter.recentItem prompter)) in
      ret prompter
    else
      let* _ := modifyCache (stepCache state) (with_cached_offset None) in
      let* w := getWizard in
      if (currentStep w =? 1) && shouldDispose answer
      then ret (Prompter.dispose prompter)
      else ret prompter in
  let* w := getWizard in
  let* _ := modifyWizard
              (with_stepOffset
                 (fst (_stepOffset w) + Prompter.totalSteps prompter - 1,
                  snd (_stepOffset w) + Prompter.totalSteps prompter - 1)) in
  ret (answer, prompter).

(** [promptUser] returns the answer; the prompter object it made is returned
    with it, as the wizard leaves it. *)
Definition promptUser (state : StateWithCache) (provider : PrompterProvider)
    (impliedResponse : value) : M (value * Prompter.t) :=
  let* prompter := promptUser_before state provider impliedResponse in
  let* (answer, prompter) := promptUser_await state prompter in
  promptUser_after state answer prompter.

(** *** The bound step of a property *)

Record StepResult := {
  nextState : loc;
  nextSteps : option Branch;
  controlSignal : option ControlSignal
}.

(** From the start of the step to the response of [promptUser]. *)
Definition boundStep_prompt (prop : string) (b : BoundStep) (state : loc)
    : M (value * Prompter.t) :=
  let* est := createStepEstimator state prop in
  let* w := getWizard in
  let* s := readState state in
  let stateWithCache :=
    {| sw_state := WizardForm.applyDefaults (_form w) s (getAssigned w);
       stepCache := bs_stepCache b;
       estimator := est |} in
  let impliedResponse :=
    Lodash.get (nullish_or (implicitState (options w)) (VObj [])) prop in
  promptUser stateWithCache (bs_provider b) impliedResponse.

(** From the response to the returned object. *)
Definition boundStep_result (prop : string) (state : loc) (response : value)
    : M StepResult :=
  let* w := getWizard in
  match same_control WIZARD_EXIT response, exitStep w with
  | true, Some exit =>
      ret {| nextState := state; nextSteps := Some [exit]; controlSignal := None |}
  | _, _ =>
      let* _ :=
        if isValidResponse response
        then modifyState state (fun s => Lodash.set s prop response)
        else ret tt in
      let* s := readState state in
      let* w := getWizard in
      ret {| nextState := state;
             nextSteps := Some (resolveNextSteps w s (getAssigned w));
             controlSignal :=
               match response with
               | VControl c => Some (type c)
               | _ => None
               end |}
  end.

Definition boundStep (prop : string) (b : BoundStep) (state : loc) : M StepResult :=
  let* (response, _) := boundStep_prompt prop b state in
  boundStep_result prop state response.

(** *** [run]

    Split at its [await], like [promptUser].  Before the controller runs,
    the wizard marks itself running, binds the steps and resolves the first
    branch, whose steps it hands to [addStep] in order; the branch is what
    this part returns.  Once the controller has returned [outputState], the
    wizard is no longer running and a state that is not [undefined] gets
    its defaults. *)
Definition run_before : M Branch :=
  let* _ := modifyWizard (with_running true) in
  let* _ := assignSteps in
  let* w := getWizard in
  ret (resolveNextSteps w (nullish_or (initState (options w)) (VObj []))
         (getAssigned w)).

Definition run_after (outputState : option value) : M (option value) :=
  let* _ := modifyWizard (with_running false) in
  let* w := getWizard in
  ret (match outputState with
       | Some s => Some (WizardForm.applyDefaults (_form w) s (getAssigned w))
       | None => None
       end).

(** ** Step resolution as the specification words it

    For every bound property, in binding order, that is not already
    scheduled: evaluate the visibility predicate against the state and the
    running assigned set; a property whose predicate holds is appended and
    added to the running set. *)
Fixpoint resolve_running (form : WizardForm.t) (ctl : Controller.t) (state : value)
    (props : list string) (runningSet : gset string) : list string :=
  match props with
  | [] => []
  | p :: rest =>
      if Controller.containsStep ctl (BoundStepFn p) then
        resolve_running form ctl state rest runningSet
      else if WizardForm.canShowProperty form p state runningSet then
        p :: resolve_running form ctl state rest ({[p]} ∪ runningSet)
      else resolve_running form ctl state rest runningSet
  end.

(** Calling one estimator with several hypothetical responses in turn. *)
Fixpoint callEstimator_each (e : StepEstimator) (responses : list value) : M (list Z) :=
  match responses with
  | [] => ret []
  | r :: rest =>
      let* n := callEstimator e r in
      let* ns := callEstimator_each e rest in
      ret (n :: ns)
  end.

(** The offset the prompt starts from: the one saved in the cache of the
    property, or else the current one. *)
Definition restored_offset (sw : StateWithCache) (W : World) : Z * Z :=
  default (_stepOffset (wizard W)) (stepOffset (stepCaches W !!! stepCache sw)).

(** What one call of the estimator of [prop] returns when its clone holds
    [clone]: nothing is estimated for a control signal; otherwise the steps
    revealed once [prop] holds the response, plus the parent's estimate. *)
Definition estimate (w : Wizard) (prop : string) (clone response : value) : Z :=
  if isWizardControl response then 0
  else
    let s := Lodash.set clone prop response in
    Z.of_nat (List.length (resolveNextSteps w s {[prop]}))
    + match _estimator w with
      | Some f => f s
      | None => 0
      end.

(** The store once a bound step has recorded its response. *)
Definition record_response (prop : string) (state : loc) (response : value)
    (W : World) : World :=
  if isValidResponse response
  then {| wizard := wizard W;
          states := <[state := Lodash.set (states W !!! state) prop response]> (states W);
          stepCaches := stepCaches W |}
  else W.

(** The constants [shouldDispose] looks for. *)
Definition disposing_constants : list value :=
  [VControl WIZARD_EXIT; VControl WIZARD_BACK; VControl WIZARD_FORCE_EXIT].

(** ** A small wizard to run the definitions on

    Two properties, [name] and [advanced]; [name] can always be shown and
    [advanced] only once [name] is assigned. *)
Module Demo.

(** A prompter that answers [a] and reports that it took [n] steps. *)
Definition prompterAnswering (a : value) (n : Z) : Prompter.t :=
  {| Prompter.recentItem := VUndefined;
     Prompter.totalSteps := 1;
     Prompter.configured := [];
     Prompter.disposed := 0;
     Prompter.behave := fun _ recent c =>
       {| Prompter.answer := a;
          Prompter.recentItem_after := if isValidResponse a then a else recent;
          Prompter.totalSteps_after := n;
          Prompter.cache_after := c |} |}.

Definition form (a : value) (n : Z) : WizardForm.t :=
  {| WizardForm.properties := ["name"; "advanced"]%string;
     WizardForm.getPrompterProvider := fun _ => Some (fun _ => prompterAnswering a n);
     WizardForm.canShowProperty := fun prop _ assigned =>
       if String.eqb prop "name" then true
       else bool_decide ("name"%string ∈ assigned);
     WizardForm.applyDefaults := fun s _ => s |}.

(** The scenario of the specification: [advanced] can be shown if and
    only if the answer for [name] is the string x. *)
Definition is_x (v : value) : bool :=
  match v with
  | VStr s => String.eqb s "x"
  | _ => false
  end.

Definition form_x (a : value) : WizardForm.t :=
  {| WizardForm.properties := ["name"; "advanced"]%string;
     WizardForm.getPrompterProvider := fun _ => Some (fun _ => prompterAnswering a 1);
     WizardForm.canShowProperty := fun prop state _ =>
       if String.eqb prop "name" then true
       else is_x (Lodash.get state "name");
     WizardForm.applyDefaults := fun s _ => s |}.

(** The controller before any step has run, and while the step of [name]
    runs as the first step. *)
Definition idle : Controller.t :=
  {| Controller.currentStep := 1;
     Controller.totalSteps := 1;
     Controller.containsStep := fun _ => false |}.

Definition asking_name : Controller.t :=
  {| Controller.currentStep := 1;
     Controller.totalSteps := 2;
     Controller.containsStep := fun s => bool_decide (s = BoundStepFn "name") |}.

Definition opts (a : value) (n : Z) (withExit : bool) : WizardOptions :=
  {| initForm := Some (form a n);
     initState := Some (VObj []);
     exitPrompter :=
       if withExit then Some (fun _ => prompterAnswering (VBool true) 1) else None;
     implicitState := None |}.

(** The state object is at location 0; the steps are bound as [run] does. *)
Definition world (a : value) (n : Z) (withExit : bool) (ctl : Controller.t) : World :=
  snd (assignSteps
         {| wizard := new_Wizard (opts a n withExit) ctl;
            states := {[ 0%nat := VObj [] ]};
            stepCaches := ∅ |}).

Definition world_x (a : value) : World :=
  snd (assignSteps
         {| wizard :=
              new_Wizard {| initForm := Some (form_x a); initState := Some (VObj []);
                            exitPrompter := None; implicitState := None |}
                         asking_name;
            states := {[ 0%nat := VObj [] ]};
            stepCaches := ∅ |}).

Definition nameStep (W : World) : BoundStep :=
  match boundSteps (wizard W) with
  | (_, b) :: _ => b
  | [] => {| bs_provider := fun _ => prompterAnswering VUndefined 1; bs_stepCache := 0%nat |}
  end.

End Demo.


(** * Further parts of the two files *)

(** ** Binding, step by step *)

(** The body of the loop of [assignSteps], for one property. *)
Definition assignStep (prop : string) : M unit :=
  let* w := getWizard in
  match WizardForm.getPrompterProvider (_form w) prop with
  | Some provider =>
      if negb (has_key prop (boundSteps w)) then
        let* step := createBoundStep prop provider in
        modifyWizard (fun w => with_boundSteps (boundSteps w ++ [(prop, step)]) w)
      else ret tt
  | None => ret tt
  end.

(** The properties a pass of [assignSteps] binds, given the keys already
    bound: those with a provider, each once, in the order of the form. *)
Fixpoint newly_bound (form : WizardForm.t) (bound props : list string) : list string :=
  match props with
  | [] => []
  | p :: rest =>
      match WizardForm.getPrompterProvider form p with
      | Some _ =>
          if existsb (String.eqb p) bound then newly_bound form bound rest
          else p :: newly_bound form (bound ++ [p]) rest
      | None => newly_bound form bound rest
      end
  end.

(** Every bound step holds the cache object that the table has for its
    property. *)
Definition caches_bound (W : World) : Prop :=
  Forall (fun entry : string * BoundStep =>
            caches (wizard W) !! fst entry = Some (bs_stepCache (snd entry)))
         (boundSteps (wizard W)).

(** The bound properties that can be shown and are not scheduled, when the
    set of assigned properties plays no part. *)
Definition visible_unscheduled (w : Wizard) (state : value) (assigned : gset string)
    : list string :=
  List.filter
    (fun p => WizardForm.canShowProperty (_form w) p state assigned
              && negb (Controller.containsStep (stateController w) (BoundStepFn p)))
    (map fst (boundSteps w)).

(** ** The exit step *)

(** JavaScript truthiness, as [response && ...] tests it. *)
Definition truthy (v : value) : bool :=
  match v with
  | VUndefined | VNull => false
  | VBool b => b
  | VNum n => negb (n =? 0)
  | VStr s => negb (String.eqb s "")
  | VControl _ | VObj _ => true
  end.

(** [Array.includes] compares with SameValueZero.  The constants it is used
    with here are a boolean and [WizardControl] objects; a plain object of
    the response is never one of them. *)
Definition same_value (x v : value) : bool :=
  match x, v with
  | VUndefined, VUndefined => true
  | VNull, VNull => true
  | VBool a, VBool b => Bool.eqb a b
  | VNum a, VNum b => a =? b
  | VStr a, VStr b => String.eqb a b
  | VControl a, VControl b => bool_decide (a = b)
  | _, _ => false
  end.

Definition exit_responses : list value :=
  [VBool true; VControl WIZARD_EXIT; VControl WIZARD_FORCE_EXIT].

Definition didExit (response : value) : bool :=
  truthy response && existsb (fun x => same_value x response) exit_responses.

(** The step made by [createExitStep(provider)], run on the state object at
    [state].  [setSteps] is the prompter's method of that name, which is
    declared in [shared/ui/prompter.ts]: whatever it does to the prompter.
    The exit prompter is configured with no cache, so the prompt sees an
    empty one.  The prompter object is returned with the result, as the
    step leaves it. *)
Definition exitStep_run (setSteps : Z -> Z -> Prompter.t -> Prompter.t)
    (provider : value -> Prompter.t) (state : loc) : M (StepResult * Prompter.t) :=
  let* s := readState state in
  let prompter := provider s in
  let* w := getWizard in
  let prompter := setSteps (currentStep w) (totalSteps w) prompter in
  let '(response, prompter, _) := Prompter.promptControl prompter emptyCache in
  let prompter := if didExit response then Prompter.dispose prompter else prompter in
  ret ({| nextState := state;
          nextSteps := None;
          controlSignal := Some (if didExit response then Exit else Back) |},
       prompter).

(** ** The toggle button of [shared/ui/buttons.ts] *)

Module ToggleButton.

Section Button.

(** [Icon] is the type of [iconPath]; [Env] is what the callbacks act on;
    [retry] is the constant [WizardControl.Retry] of [wizards/util], which
    [onClick] returns. *)
Context {Icon Env Control : Type} (retry : Control).

Inductive ButtonState := on | off.

(** [vscode.QuickInputButton] *)
Record Face := {
  iconPath : Icon;
  tooltip : option string
}.

Record ToggleButtonOptions := {
  initState : option ButtonState;
  onCallback : option (Env -> Env);
  offCallBack : option (Env -> Env)
}.

Record t := {
  _state : ButtonState;
  onState : Face;
  offState : Face;
  options : ToggleButtonOptions
}.

(** The constructor: [options] defaults to an object with no field. *)
Definition new (onFace offFace : Face) (opts : option ToggleButtonOptions) : t :=
  let o := default {| initState := None; onCallback := None; offCallBack := None |} opts in
  {| _state := default off (initState o);
     onState := onFace; offState := offFace; options := o |}.

Definition get_iconPath (b : t) : Icon :=
  match _state b with
  | on => iconPath (onState b)
  | off => iconPath (offState b)
  end.

Definition get_tooltip (b : t) : option string :=
  match _state b with
  | on => tooltip (onState b)
  | off => tooltip (offState b)
  end.

Definition state (b : t) : ButtonState := _state b.

Definition flip (s : ButtonState) : ButtonState :=
  match s with on => off | off => on end.

Definition call (f : option (Env -> Env)) (e : Env) : Env :=
  match f with
  | Some g => g e
  | None => e
  end.

(** [onClick]: the button after the click, what the callbacks left, and
    the returned control value. *)
Definition onClick (b : t) (e : Env) : Control * t * Env :=
  let s := flip (_state b) in
  let b' := {| _state := s; onState := onState b; offState := offState b;
               options := options b |} in
  let e1 := match s with
            | on => call (onCallback (options b)) e
            | off => e
            end in
  let e2 := match s with
            | off => call (offCallBack (options b)) e1
            | on => e1
            end in
  (retry, b', e2).

(** [n] clicks in a row. *)
Fixpoint clicks (n : nat) (b : t) (e : Env) : t * Env :=
  match n with
  | O => (b, e)
  | S k => let '(_, b', e') := onClick b e in clicks k b' e'
  end.

End Button.

End ToggleButton.

(** * Properties *)

(** ** The definitions on small inputs *)

Example toPath_dotted : Lodash.toPath "a.b" = ["a"; "b"]%string.
Proof. reflexivity. Qed.

Example set_creates_nested :
  Lodash.set (VObj [("a"%string, VNum 5)]) "a.b" (VStr "x")
  = VObj [("a"%string, VObj [("b"%string, VStr "x")])].
Proof. reflexivity. Qed.

Example set_undefined_keeps_key :
  Lodash.set (VObj []) "name" VUndefined = VObj [("name"%string, VUndefined)].
Proof. reflexivity. Qed.

Example valid_responses :
  map isValidResponse [VUndefined; VNull; VStr "x"; VControl WIZARD_BACK]
  = [false; true; true; false].
Proof. reflexivity. Qed.

Example shouldDispose_by_identity :
  map shouldDispose
      [VControl WIZARD_EXIT; VControl WIZARD_BACK; VControl WIZARD_FORCE_EXIT;
       VControl WIZARD_RETRY; VControl (OtherControl 0 Exit); VUndefined]
  = [true; true; true; false; false; false].
Proof. reflexivity. Qed.

Example binding_order :
  map fst (boundSteps (wizard (Demo.world (VStr "x") 1 false Demo.idle)))
  = ["name"; "advanced"]%string.
Proof. vm_compute. reflexivity. Qed.

(** Answering x for [name] schedules [advanced]; answering y does not. *)
Example scenario_name_x :
  let W := Demo.world_x (VStr "x") in
  nextSteps (fst (boundStep "name" (Demo.nameStep W) 0%nat W))
  = Some [BoundStepFn "advanced"].
Proof. vm_compute. reflexivity. Qed.

Example scenario_name_y :
  let W := Demo.world_x (VStr "y") in
  let r := boundStep "name" (Demo.nameStep W) 0%nat W in
  nextSteps (fst r) = Some []
  /\ states (snd r) !!! 0%nat = VObj [("name"%string, VStr "y")].
Proof. vm_compute. split; reflexivity. Qed.

(** ** [_.set] on one path *)

Section LodashFacts.

Import Lodash.

Lemma lookup_assignValue (key : string) (x : value) (fields : list (string * value)) :
  lookup_key key (assignValue key x fields) = Some x.
Proof.
  induction fields as [|[k v] rest IH]; simpl.
  - by rewrite String.eqb_refl.
  - destruct (String.eqb key k) eqn:E; simpl; rewrite E; [done | exact IH].
Qed.

Lemma assignValue_twice (key : string) (x y : value) (fields : list (string * value)) :
  assignValue key y (assignValue key x fields) = assignValue key y fields.
Proof.
  induction fields as [|[k v] rest IH]; simpl.
  - by rewrite String.eqb_refl.
  - destruct (String.eqb key k) eqn:E; simpl; rewrite E; [done | by rewrite IH].
Qed.

(** Setting a path twice keeps the second value only, whatever stood on
    the path before. *)
Lemma baseSet_twice (path : list string) (x y : value) :
  forall fields : list (string * value),
    baseSet path y (baseSet path x fields) = baseSet path y fields.
Proof.
  induction path as [|key rest IH]; intros fields; [done|].
  destruct rest as [|key' rest'].
  - simpl. apply assignValue_twice.
  - change (baseSet (key :: key' :: rest') y (baseSet (key :: key' :: rest') x fields))
      with (let fs1 := baseSet (key :: key' :: rest') x fields in
            assignValue key
              (VObj (baseSet (key' :: rest') y
                       match lookup_key key fs1 with
                       | Some (VObj fs) => fs
                       | _ => []
                       end)) fs1).
    change (baseSet (key :: key' :: rest') x fields)
      with (assignValue key
              (VObj (baseSet (key' :: rest') x
                       match lookup_key key fields with
                       | Some (VObj fs) => fs
                       | _ => []
                       end)) fields).
    cbv zeta. rewrite lookup_assignValue, assignValue_twice, IH. reflexivity.
Qed.




Lemma set_twice (object : value) (prop : string) (x y : value) :
  Lodash.set (Lodash.set object prop x) prop y = Lodash.set object prop y.
Proof.
  destruct object; try reflexivity. simpl. by rewrite baseSet_twice.
Qed.

End LodashFacts.

(** ** Step resolution *)

Section Resolution.

Variables (w : Wizard) (state : value).

Let body := fun (acc : Branch * gset string) (entry : string * BoundStep) =>
  let (nextSteps, currentlyAssigned) := acc in
  let targetProp := fst entry in
  if WizardForm.canShowProperty (_form w) targetProp state currentlyAssigned
     && negb (Controller.containsStep (stateController w) (BoundStepFn targetProp))
  then (nextSteps ++ [BoundStepFn targetProp], {[targetProp]} ∪ currentlyAssigned)
  else (nextSteps, currentlyAssigned).

(** The loop, started in the middle: what is already in [nextSteps] stays
    in front, and the rest of the pass sees the running set. *)
Lemma resolve_loop (entries : list (string * BoundStep)) :
  forall (nextSteps : Branch) (currentlyAssigned : gset string),
    fst (fold_left body entries (nextSteps, currentlyAssigned))
    = nextSteps ++ map BoundStepFn
        (resolve_running (_form w) (stateController w) state
           (map fst entries) currentlyAssigned).
Proof.
  induction entries as [|[p b] rest IH]; intros nextSteps cur; simpl.
  - by rewrite app_nil_r.
  - destruct (Controller.containsStep (stateController w) (BoundStepFn p)).
    + rewrite andb_false_r. apply IH.
    + rewrite andb_true_r.
      destruct (WizardForm.canShowProperty (_form w) p state cur).
      * rewrite IH, <- app_assoc. reflexivity.
      * apply IH.
Qed.

Lemma resolveNextSteps_running (assigned : gset string) :
  resolveNextSteps w state assigned
  = map BoundStepFn
      (resolve_running (_form w) (stateController w) state
         (map fst (boundSteps w)) assigned).
Proof. unfold resolveNextSteps. apply (resolve_loop (boundSteps w) [] assigned). Qed.

End Resolution.

(** C1.  For every wizard, state and initial assigned set, [resolveNextSteps]
    goes through the bound properties in binding order; a property that is
    not already scheduled has its visibility predicate evaluated against the
    state and the running copy of the assigned set, and when the predicate
    holds the property is appended to the branch and added to the running
    copy.  Some wizard schedules a property whose predicate fails against
    the original set and holds only because the property before it was just
    added. *)
Theorem resolveNextSteps_uses_running_set :
  (forall (w : Wizard) (state : value) (assigned : gset string),
      resolveNextSteps w state assigned
      = map BoundStepFn
          (resolve_running (_form w) (stateController w) state
             (map fst (boundSteps w)) assigned))
  /\ (exists (w : Wizard) (state : value) (assigned : gset string) (p q : string),
         resolveNextSteps w state assigned = [BoundStepFn p; BoundStepFn q]
         /\ WizardForm.canShowProperty (_form w) q state assigned = false
         /\ WizardForm.canShowProperty (_form w) q state ({[p]} ∪ assigned) = true).
Proof.
  split.
  - intros w state assigned. apply resolveNextSteps_running.
  - exists (wizard (Demo.world (VStr "x") 1 false Demo.idle)), (VObj []), ∅,
      "name"%string, "advanced"%string.
    repeat split; vm_compute; reflexivity.
Qed.

(** ** The cache table *)

Example cache_throws_during_run :
  let W := {| wizard := new_Wizard (Demo.opts (VStr "x") 1 false) Demo.idle;
              states := {[ 0%nat := VObj [] ]}; stepCaches := ∅ |} in
  get_cache (wizard W) = Ok ∅
  /\ fst (run_before W) = [BoundStepFn "name"; BoundStepFn "advanced"]
  /\ get_cache (wizard (snd (run_before W)))
     = Throw "Cannot retrieve cache while wizard is running."
  /\ exists table, get_cache (wizard (snd (run_after None (snd (run_before W)))))
                   = Ok table
                   /\ table !! "name"%string = Some 0%nat
                   /\ table !! "advanced"%string = Some 1%nat.
Proof.
  repeat split; try (vm_compute; reflexivity).
  eexists. repeat split; vm_compute; reflexivity.
Qed.

(** C9.  While [running] is true, reading and writing [cache] both throw;
    otherwise reading returns the internal table and writing replaces it,
    so that reading after writing returns the table written. *)
Theorem cache_guarded_by_running :
  forall (w : Wizard) (table : gmap string loc),
    if running w then
      get_cache w = Throw "Cannot retrieve cache while wizard is running."
      /\ set_cache table w = Throw "Cannot set cache while wizard is running."
    else
      get_cache w = Ok (caches w)
      /\ set_cache table w = Ok (with_caches table w)
      /\ get_cache (with_caches table w) = Ok table.
Proof.
  intros w table. unfold get_cache, set_cache.
  destruct (running w) eqn:R; [done|].
  repeat split. simpl. by rewrite R.
Qed.

(** ** [promptUser] *)

Ltac run_prompt :=
  unfold promptUser, promptUser_before, promptUser_await, promptUser_after,
    Prompter.promptControl, bind, ret, getWizard, readCache, modifyCache,
    modifyWizard; simpl;
  rewrite ?lookup_total_insert_eq; simpl.

Ltac split_ifs :=
  repeat match goal with
         | |- context [if ?c then _ else _] => destruct c eqn:?; simpl
         end;
  rewrite ?lookup_total_insert_eq; simpl.

Lemma promptUser_before_offset sw provider implied W :
  _stepOffset (wizard (snd (promptUser_before sw provider implied W)))
  = restored_offset sw W
  /\ stateController (wizard (snd (promptUser_before sw provider implied W)))
     = stateController (wizard W)
  /\ stepOffset (stepCaches (snd (promptUser_before sw provider implied W)) !!! stepCache sw)
     = Some (restored_offset sw W).
Proof. unfold restored_offset. run_prompt. split_ifs; done. Qed.

Lemma promptUser_final_offset sw provider implied W :
  let r := promptUser sw provider implied W in
  _stepOffset (wizard (snd r))
  = (fst (restored_offset sw W) + Prompter.totalSteps (snd (fst r)) - 1,
     snd (restored_offset sw W) + Prompter.totalSteps (snd (fst r)) - 1)
  /\ stateController (wizard (snd r)) = stateController (wizard W).
Proof. unfold restored_offset. run_prompt. split_ifs; done. Qed.

(** C7.  [promptUser] first takes the step offset saved in the cache of the
    property when there is one (and keeps the current offset otherwise),
    saves that offset in the cache, and only then configures the prompter
    with the current and total step numbers computed from it; once the
    prompt has settled, both components of the wizard's offset are the
    restored ones plus [prompter.totalSteps - 1]. *)
Theorem promptUser_restores_and_advances_offset :
  forall (sw : StateWithCache) (provider : PrompterProvider) (implied : value)
         (W : World),
    let restored := restored_offset sw W in
    let before := promptUser_before sw provider implied W in
    let after := promptUser sw provider implied W in
    let prompter := snd (fst after) in
    _stepOffset (wizard (snd before)) = restored
    /\ stepOffset (stepCaches (snd before) !!! stepCache sw) = Some restored
    /\ Prompter.configured (fst before)
       = Prompter.configured (provider sw)
         ++ [ {| Prompter.cache := stepCache sw;
                 Prompter.stepEstimator := estimator sw;
                 Prompter.steps :=
                   (fst restored + Controller.currentStep (stateController (wizard W)),
                    snd restored + Controller.totalSteps (stateController (wizard W))) |} ]
    /\ _stepOffset (wizard (snd after))
       = (fst restored + (Prompter.totalSteps prompter - 1),
          snd restored + (Prompter.totalSteps prompter - 1)).
Proof.
  intros sw provider implied W restored before after prompter.
  destruct (promptUser_before_offset sw provider implied W) as (Hoff & _ & Hcache).
  destruct (promptUser_final_offset sw provider implied W) as (Hfin & _).
  repeat split; [exact Hoff | exact Hcache | | ].
  - subst before restored. unfold restored_offset. run_prompt. split_ifs; done.
  - subst after prompter restored. cbv zeta in Hfin. rewrite Hfin. f_equal; lia.
Qed.

Lemma shouldDispose_constants (v : value) :
  shouldDispose v = true <-> In v disposing_constants.
Proof.
  unfold shouldDispose, disposing_constants. simpl. split.
  - destruct v as [| | | | |c|]; try discriminate.
    destruct c; simpl; try discriminate; tauto.
  - intros [<-|[<-|[<-|[]]]]; reflexivity.
Qed.

Lemma shouldDispose_not_valid (v : value) :
  shouldDispose v = true -> isValidResponse v = false.
Proof. destruct v; try discriminate. reflexivity. Qed.

(** How often [promptUser] has disposed the prompter it made. *)
Lemma promptUser_disposals sw provider implied W :
  let before := promptUser_before sw provider implied W in
  let settled := promptUser_await sw (fst before) (snd before) in
  Prompter.disposed (snd (fst (promptUser sw provider implied W)))
  = if (currentStep (wizard (snd settled)) =? 1) && shouldDispose (fst (fst settled))
    then S (Prompter.disposed (provider sw))
    else Prompter.disposed (provider sw).
Proof.
  run_prompt.
  set (c0 := stepCaches W !!! stepCache sw).
  destruct (is_undefined (picked c0)) eqn:Hp; simpl;
    [destruct (is_undefined implied) eqn:Hi; simpl|].
  all: rewrite ?lookup_total_insert_eq; simpl.
  all: match goal with
       | |- context [Prompter.answer ?o] => set (out := o)
       end.
  all: destruct (isValidResponse (Prompter.answer out)) eqn:Hv; simpl.
  all: try (destruct (shouldDispose (Prompter.answer out)) eqn:Hd;
            [apply shouldDispose_not_valid in Hd; congruence|];
            rewrite andb_false_r; reflexivity).
  all: unfold currentStep; simpl.
  all: destruct (_ && _); reflexivity.
Qed.

(** The answer [promptUser] returns is the prompter's, and what it leaves
    in the cache of the property. *)
Lemma promptUser_answer_and_cache sw provider implied W :
  let before := promptUser_before sw provider implied W in
  let settled := promptUser_await sw (fst before) (snd before) in
  let after := promptUser sw provider implied W in
  fst (fst after) = fst (fst settled)
  /\ stepCaches (snd after) !!! stepCache sw
     = (if isValidResponse (fst (fst settled))
        then with_picked (Prompter.recentItem (snd (fst settled)))
        else with_cached_offset None)
         (stepCaches (snd settled) !!! stepCache sw).
Proof.
  run_prompt.
  set (c0 := stepCaches W !!! stepCache sw).
  destruct (is_undefined (picked c0)) eqn:Hp; simpl;
    [destruct (is_undefined implied) eqn:Hi; simpl|].
  all: rewrite ?lookup_total_insert_eq; simpl.
  all: match goal with
       | |- context [Prompter.answer ?o] => set (out := o)
       end.
  all: destruct (isValidResponse (Prompter.answer out)) eqn:Hv; simpl.
  all: rewrite ?lookup_total_insert_eq; simpl.
  all: try (split; reflexivity).
  all: destruct (_ && _); simpl; rewrite ?lookup_total_insert_eq; split; reflexivity.
Qed.

(** C8.  When the prompt settles with a valid answer, [picked] in the cache
    of the property becomes the prompter's [recentItem]; with any other
    response the saved [stepOffset] is removed from the cache.  [dispose] is
    called (once) exactly when the wizard's [currentStep] is 1 and the
    response is one of the constants [WIZARD_EXIT], [WIZARD_BACK],
    [WIZARD_FORCE_EXIT]; it is not called for [WIZARD_RETRY] nor for
    [undefined]. *)
Theorem promptUser_cache_and_dispose :
  forall (sw : StateWithCache) (provider : PrompterProvider) (implied : value)
         (W : World),
    let before := promptUser_before sw provider implied W in
    let settled := promptUser_await sw (fst before) (snd before) in
    let answer := fst (fst settled) in
    let after := promptUser sw provider implied W in
    let finalCache := stepCaches (snd after) !!! stepCache sw in
    let disposals := Prompter.disposed (snd (fst after)) in
    fst (fst after) = answer
    /\ (if isValidResponse answer
        then picked finalCache = Prompter.recentItem (snd (fst settled))
        else stepOffset finalCache = None)
    /\ (disposals = S (Prompter.disposed (provider sw))
        <-> currentStep (wizard (snd settled)) = 1 /\ In answer disposing_constants)
    /\ (disposals = Prompter.disposed (provider sw)
        <-> ~ (currentStep (wizard (snd settled)) = 1 /\ In answer disposing_constants))
    /\ (In answer [VControl WIZARD_RETRY; VUndefined]
        -> disposals = Prompter.disposed (provider sw)).
Proof.
  intros sw provider implied W before settled answer after finalCache disposals.
  pose proof (promptUser_answer_and_cache sw provider implied W) as Hboth.
  pose proof (promptUser_disposals sw provider implied W) as Hdisp.
  cbv zeta in Hboth, Hdisp. destruct Hboth as [Hans Hcache].
  fold before in Hans, Hcache, Hdisp. fold settled in Hans, Hcache, Hdisp.
  fold after in Hans, Hcache. fold answer in Hans, Hcache, Hdisp.
  fold finalCache in Hcache. change (Prompter.disposed _) with disposals in Hdisp at 1.
  clearbody disposals.
  assert (Hcond : (currentStep (wizard (snd settled)) =? 1) && shouldDispose answer = true
                  <-> currentStep (wizard (snd settled)) = 1 /\ In answer disposing_constants).
  { rewrite andb_true_iff, Z.eqb_eq, shouldDispose_constants. reflexivity. }
  split; [exact Hans|]. split.
  { rewrite Hcache. destruct (isValidResponse answer); reflexivity. }
  destruct ((currentStep (wizard (snd settled)) =? 1) && shouldDispose answer) eqn:E.
  - pose proof (proj1 Hcond eq_refl) as Hc.
    split; [tauto|]. split; [split; [intros H; exfalso; lia | tauto]|].
    destruct Hc as [_ Hin]. intros [H|[H|[]]]; rewrite <- H in Hin;
      simpl in Hin; intuition discriminate.
  - assert (Hn : ~ (currentStep (wizard (snd settled)) = 1 /\ In answer disposing_constants)).
    { intros Hc. apply Hcond in Hc. discriminate. }
    split; [split; [intros H; exfalso; lia | tauto]|].
    split; [tauto|]. intros _. exact Hdisp.
Qed.

(** ** The step offset *)

(** C3, as stated, fails: after [stepOffset = [5, 7]] a prompt whose
    prompter takes three steps leaves the getters two above [5] and [7]
    plus the controller's counters. *)
Lemma stepOffset_not_kept_across_prompt :
  ~ (forall (a b : Z) (W : World) (sw : StateWithCache)
            (provider : PrompterProvider) (implied : value),
        let W0 := {| wizard := set_stepOffset (a, b) (wizard W);
                     states := states W; stepCaches := stepCaches W |} in
        let W' := snd (promptUser sw provider implied W0) in
        currentStep (wizard W')
        = a + Controller.currentStep (stateController (wizard W'))
        /\ totalSteps (wizard W')
           = b + Controller.totalSteps (stateController (wizard W'))).
Proof.
  intros H.
  specialize (H 5 7 (Demo.world (VStr "x") 3 false Demo.asking_name)
                {| sw_state := VObj []; stepCache := 0%nat;
                   estimator := {| est_state := 1%nat; est_prop := "name" |} |}
                (fun _ => Demo.prompterAnswering (VStr "x") 3) VUndefined).
  vm_compute in H. destruct H as [H _]. discriminate H.
Qed.

(** C3, amended.  Right after the setter, and whatever the controller's
    counters then are, [currentStep] is [a] plus the controller's
    [currentStep] and [totalSteps] is [b] plus the controller's
    [totalSteps].  At any time the getters are the wizard's current offset
    plus the controller's counters, and a [promptUser] call makes that
    offset the restored one advanced by [prompter.totalSteps - 1]. *)
Theorem stepOffset_additive :
  (forall (a b : Z) (w : Wizard) (ctl : Controller.t),
      currentStep (with_controller ctl (set_stepOffset (a, b) w))
      = a + Controller.currentStep ctl
      /\ totalSteps (with_controller ctl (set_stepOffset (a, b) w))
         = b + Controller.totalSteps ctl)
  /\ (forall (sw : StateWithCache) (provider : PrompterProvider)
             (implied : value) (W : World),
         let after := promptUser sw provider implied W in
         let advance := Prompter.totalSteps (snd (fst after)) - 1 in
         currentStep (wizard (snd after))
         = fst (restored_offset sw W) + advance
           + Controller.currentStep (stateController (wizard W))
         /\ totalSteps (wizard (snd after))
            = snd (restored_offset sw W) + advance
              + Controller.totalSteps (stateController (wizard W))).
Proof.
  split.
  - intros a b w ctl. split; reflexivity.
  - intros sw provider implied W after advance.
    pose proof (promptUser_final_offset sw provider implied W) as H.
    cbv zeta in H. fold after in H. destruct H as [Hoff Hctl].
    unfold currentStep, totalSteps. rewrite Hoff, Hctl. simpl.
    subst advance. split; lia.
Qed.

(** ** The step estimator *)

Ltac run_estimator :=
  unfold callEstimator, createStepEstimator, bind, ret, getWizard, readState,
    modifyState, allocState; simpl;
  rewrite ?lookup_total_insert_eq; simpl.

Lemma callEstimator_control (e : StepEstimator) (c : WizardControl) (W : World) :
  callEstimator e (VControl c) W = (0, W).
Proof. reflexivity. Qed.

Lemma callEstimator_result (e : StepEstimator) (response : value) (W : World) :
  fst (callEstimator e response W)
  = estimate (wizard W) (est_prop e) (states W !!! est_state e) response.
Proof.
  unfold estimate. destruct response; run_estimator; reflexivity.
Qed.

(** A call writes to the clone only, and leaves in it a value that a later
    [_.set] of the property cannot tell from the one before. *)
Lemma callEstimator_frame (e : StepEstimator) (response : value) (W : World) :
  let W' := snd (callEstimator e response W) in
  wizard W' = wizard W
  /\ stepCaches W' = stepCaches W
  /\ delete (est_state e) (states W') = delete (est_state e) (states W)
  /\ forall x, Lodash.set (states W' !!! est_state e) (est_prop e) x
               = Lodash.set (states W !!! est_state e) (est_prop e) x.
Proof.
  destruct response; run_estimator;
    rewrite ?insert_insert_eq, ?delete_insert_eq, ?lookup_total_insert_eq;
    repeat split; intros; rewrite ?set_twice; reflexivity.
Qed.

Lemma estimate_agrees (w : Wizard) (prop : string) (s s' r : value) :
  (forall x, Lodash.set s prop x = Lodash.set s' prop x) ->
  estimate w prop s r = estimate w prop s' r.
Proof. intros H. unfold estimate. by rewrite H. Qed.

Lemma callEstimator_each_results (e : StepEstimator) (responses : list value) :
  forall W W1 : World,
    wizard W = wizard W1 ->
    stepCaches W = stepCaches W1 ->
    delete (est_state e) (states W) = delete (est_state e) (states W1) ->
    (forall x, Lodash.set (states W !!! est_state e) (est_prop e) x
               = Lodash.set (states W1 !!! est_state e) (est_prop e) x) ->
    let called := callEstimator_each e responses W in
    fst called = map (fun r => fst (callEstimator e r W1)) responses
    /\ wizard (snd called) = wizard W1
    /\ stepCaches (snd called) = stepCaches W1
    /\ delete (est_state e) (states (snd called)) = delete (est_state e) (states W1).
Proof.
  induction responses as [|r rest IH]; intros W W1 Hw Hc Hd Hs; simpl.
  - done.
  - unfold bind, ret.
    pose proof (callEstimator_result e r W) as Hres.
    pose proof (callEstimator_frame e r W) as Hframe. cbv zeta in Hframe.
    destruct (callEstimator e r W) as [n W2]. simpl in Hres, Hframe.
    destruct Hframe as (Hw2 & Hc2 & Hd2 & Hs2).
    assert (Hs' : forall x, Lodash.set (states W2 !!! est_state e) (est_prop e) x
                            = Lodash.set (states W1 !!! est_state e) (est_prop e) x).
    { intros x. rewrite Hs2. apply Hs. }
    assert (Hd' : delete (est_state e) (states W2) = delete (est_state e) (states W1))
      by congruence.
    assert (Hw' : wizard W2 = wizard W1) by congruence.
    assert (Hc' : stepCaches W2 = stepCaches W1) by congruence.
    specialize (IH W2 W1 Hw' Hc' Hd' Hs'). cbv zeta in IH.
    destruct (callEstimator_each e rest W2) as [ns W3]. simpl in *.
    destruct IH as (IH1 & IH2 & IH3 & IH4).
    repeat split; try assumption.
    rewrite IH1. f_equal. rewrite Hres, callEstimator_result, Hw.
    apply estimate_agrees, Hs.
Qed.

(** C6.  The estimator made for a property works on a clone of the state at
    a location that was not in use when it was made.  Whatever responses it
    is then called with, in whatever order, the wizard object and the cache
    objects stay as they were, every state object that existed keeps its
    content, and each call returns what a single call with that response
    returns on the fresh estimator. *)
Theorem estimator_works_on_private_clone :
  forall (W : World) (state : loc) (prop : string) (responses : list value),
    let created := createStepEstimator state prop W in
    let e := fst created in
    let called := callEstimator_each e responses (snd created) in
    (est_state e ∉ dom (states W))
    /\ states (snd created) !!! est_state e = states W !!! state
    /\ wizard (snd called) = wizard W
    /\ stepCaches (snd called) = stepCaches W
    /\ delete (est_state e) (states (snd called)) = states W
    /\ fst called = map (fun r => fst (callEstimator e r (snd created))) responses.
Proof.
  intros W state prop responses created e called.
  set (l := fresh (dom (states W))).
  set (W1 := {| wizard := wizard W;
                states := <[l := states W !!! state]> (states W);
                stepCaches := stepCaches W |}).
  assert (Hfresh : l ∉ dom (states W)) by apply is_fresh.
  change created with ({| est_state := l; est_prop := prop |}, W1) in *.
  simpl in e. subst e called. simpl fst. simpl snd.
  pose proof (callEstimator_each_results {| est_state := l; est_prop := prop |}
                responses W1 W1 eq_refl eq_refl eq_refl (fun _ => eq_refl)) as H.
  cbv zeta in H. destruct H as (H1 & H2 & H3 & H4).
  split; [exact Hfresh|]. split; [apply lookup_total_insert_eq|].
  repeat split; try assumption.
  simpl est_state in *. etransitivity; [exact H4|].
  simpl. rewrite delete_insert_eq.
  apply delete_id, not_elem_of_dom, Hfresh.
Qed.

(** C5, as stated, fails for [undefined]: while the step of [name] runs,
    its estimator called with [undefined] counts the step of [advanced]. *)
Lemma estimator_undefined_is_estimated :
  ~ (forall (W : World) (state : loc) (prop : string) (response : value),
        isValidResponse response = false ->
        let created := createStepEstimator state prop W in
        fst (callEstimator (fst created) response (snd created)) = 0).
Proof.
  intros H.
  specialize (H (Demo.world (VStr "x") 1 false Demo.asking_name) 0%nat
                "name"%string VUndefined eq_refl).
  vm_compute in H. discriminate H.
Qed.

(** C5, amended.  For a response that is a control signal the estimator
    returns 0 at once: it calls nothing and writes nothing.  The response
    [undefined] is let through the guard and estimated like an answer: the
    property is set to [undefined] in the clone, and the result is the
    number of steps resolution then reveals plus the parent's estimate. *)
Theorem estimator_zero_for_control_signal :
  (forall (e : StepEstimator) (c : WizardControl) (W : World),
      callEstimator e (VControl c) W = (0, W))
  /\ (forall (e : StepEstimator) (W : World),
         let s := Lodash.set (states W !!! est_state e) (est_prop e) VUndefined in
         fst (callEstimator e VUndefined W)
         = Z.of_nat (List.length (resolveNextSteps (wizard W) s {[est_prop e]}))
           + match _estimator (wizard W) with
             | Some parent => parent s
             | None => 0
             end).
Proof.
  split.
  - apply callEstimator_control.
  - intros e W s. subst s. rewrite callEstimator_result. reflexivity.
Qed.

(** ** The bound step *)

(** [promptUser] writes to the cache of the property and to the offset of
    the wizard, and to nothing else. *)
Lemma promptUser_frame sw provider implied W :
  let r := promptUser sw provider implied W in
  states (snd r) = states W
  /\ wizard (snd r) = with_stepOffset (_stepOffset (wizard (snd r))) (wizard W).
Proof. run_prompt. split_ifs; done. Qed.

(** Up to the response, a bound step adds the estimator's clone to the
    store and leaves every state object that existed as it was. *)
Lemma boundStep_prompt_frame prop b state W :
  let r := boundStep_prompt prop b state W in
  states (snd r) = <[fresh (dom (states W)) := states W !!! state]> (states W)
  /\ wizard (snd r) = with_stepOffset (_stepOffset (wizard (snd r))) (wizard W).
Proof.
  unfold boundStep_prompt, createStepEstimator.
  unfold bind, ret, getWizard, readState, allocState. simpl.
  match goal with
  | |- context [promptUser ?sw ?pr ?im ?W0] =>
      pose proof (promptUser_frame sw pr im W0) as H; cbv zeta in H;
      destruct H as [Hs Hw]
  end.
  split; [exact Hs | exact Hw].
Qed.

Lemma existing_state_kept (W : World) (state : loc) (v : value) :
  is_Some (states W !! state) ->
  <[fresh (dom (states W)) := v]> (states W) !!! state = states W !!! state.
Proof.
  intros Hin. apply lookup_total_insert_ne. intros <-.
  apply (is_fresh (dom (states W))), elem_of_dom, Hin.
Qed.

Lemma resolveNextSteps_only_bound_steps (w : Wizard) (s : value) (assigned : gset string) :
  ~ In ExitStepFn (resolveNextSteps w s assigned).
Proof.
  rewrite resolveNextSteps_running, in_map_iff. intros (x & Hx & _). discriminate.
Qed.

(** An exit step exists exactly when [exitPrompter] was configured. *)
Lemma exitStep_of_new_Wizard (opts : WizardOptions) (ctl : Controller.t) :
  is_Some (exitStep (new_Wizard opts ctl)) <-> is_Some (exitPrompter opts).
Proof.
  unfold new_Wizard. simpl. destruct (exitPrompter opts); split; intros [x Hx];
    try discriminate; eauto.
Qed.

Lemma same_control_eq (c : WizardControl) (v : value) :
  same_control c v = true <-> v = VControl c.
Proof.
  destruct v; simpl; try (split; [discriminate | congruence]).
  rewrite bool_decide_eq_true. split; congruence.
Qed.

Lemma boundStep_split prop b state W response p W1 :
  boundStep_prompt prop b state W = (response, p, W1) ->
  boundStep prop b state W = boundStep_result prop state response W1.
Proof. intros H. unfold boundStep, bind. rewrite H. reflexivity. Qed.

Lemma boundStep_result_exit prop state W exit :
  exitStep (wizard W) = Some exit ->
  boundStep_result prop state (VControl WIZARD_EXIT) W
  = ({| nextState := state; nextSteps := Some [exit]; controlSignal := None |}, W).
Proof.
  intros H. unfold boundStep_result, bind, ret, getWizard. simpl. by rewrite H.
Qed.

Lemma boundStep_result_normal prop state response W :
  (response = VControl WIZARD_EXIT -> exitStep (wizard W) = None) ->
  boundStep_result prop state response W
  = ({| nextState := state;
        nextSteps :=
          Some (resolveNextSteps (wizard W)
                  (states (record_response prop state response W) !!! state)
                  (getAssigned (wizard W)));
        controlSignal :=
          match response with
          | VControl c => Some (type c)
          | _ => None
          end |},
     record_response prop state response W).
Proof.
  intros H. unfold boundStep_result, record_response, bind, ret, getWizard,
    readState, modifyState.
  destruct (same_control WIZARD_EXIT response) eqn:E.
  - apply same_control_eq in E. rewrite (H E).
    subst response. reflexivity.
  - destruct (isValidResponse response); destruct (exitStep (wizard W)); reflexivity.
Qed.

(** What a bound step returns and leaves in the state object, when the
    response does not take the exit-confirmation branch. *)
Lemma boundStep_normal_flow prop b state W response p W1 :
  is_Some (states W !! state) ->
  boundStep_prompt prop b state W = (response, p, W1) ->
  (response = VControl WIZARD_EXIT -> exitStep (wizard W) = None) ->
  let r := boundStep prop b state W in
  let after := states (snd r) !!! state in
  fst r = {| nextState := state;
             nextSteps := Some (resolveNextSteps (wizard (snd r)) after
                                  (getAssigned (wizard (snd r))));
             controlSignal := match response with
                              | VControl c => Some (type c)
                              | _ => None
                              end |}
  /\ after = (if isValidResponse response
              then Lodash.set (states W !!! state) prop response
              else states W !!! state)
  /\ wizard (snd r) = wizard W1
  /\ stepCaches (snd r) = stepCaches W1.
Proof.
  intros Hin Hprompt Hexit r after. subst after r.
  pose proof (boundStep_prompt_frame prop b state W) as Hf. cbv zeta in Hf.
  rewrite Hprompt in Hf. simpl in Hf. destruct Hf as [Hs Hw].
  rewrite (boundStep_split _ _ _ _ _ _ _ Hprompt).
  rewrite boundStep_result_normal
    by (intros E; rewrite Hw; simpl; auto).
  assert (Hkept : states W1 !!! state = states W !!! state).
  { rewrite Hs. by apply existing_state_kept. }
  unfold record_response. simpl.
  destruct (isValidResponse response); simpl;
    rewrite ?lookup_total_insert_eq, ?Hkept; repeat split; reflexivity.
Qed.

(** C2, as stated, fails for the response [WIZARD_EXIT] when an exit step
    is configured: the response is a control signal, and the step surfaces
    no signal and does not resolve the next steps. *)
Lemma boundStep_exit_surfaces_no_signal :
  ~ (forall (W : World) (prop : string) (b : BoundStep) (state : loc)
            (c : WizardControl),
        is_Some (states W !! state) ->
        fst (fst (boundStep_prompt prop b state W)) = VControl c ->
        let r := boundStep prop b state W in
        states (snd r) !!! state = states W !!! state
        /\ controlSignal (fst r) = Some (type c)
        /\ nextSteps (fst r)
           = Some (resolveNextSteps (wizard (snd r)) (states (snd r) !!! state)
                     (getAssigned (wizard (snd r))))).
Proof.
  intros H.
  specialize (H (Demo.world (VControl WIZARD_EXIT) 1 true Demo.asking_name)
                "name"%string
                (Demo.nameStep (Demo.world (VControl WIZARD_EXIT) 1 true Demo.asking_name))
                0%nat WIZARD_EXIT).
  destruct H as (_ & Hsignal & _).
  - vm_compute. eauto.
  - vm_compute. reflexivity.
  - vm_compute in Hsignal. discriminate Hsignal.
Qed.

(** C2, amended.  For the bound step of a property, unless the response is
    the constant [WIZARD_EXIT] while an exit step is configured: after a
    valid answer the state object holds the input state with the property
    set to the answer, and no signal is surfaced; after a control signal,
    or [undefined], the state object is unchanged, and the tag of a control
    signal is surfaced as [controlSignal]; in each case [nextSteps] is step
    resolution run against the state as it then is. *)
Theorem boundStep_answer_or_signal :
  forall (W : World) (prop : string) (b : BoundStep) (state : loc)
         (response : value) (p : Prompter.t) (W1 : World),
    is_Some (states W !! state) ->
    boundStep_prompt prop b state W = (response, p, W1) ->
    (response = VControl WIZARD_EXIT -> exitStep (wizard W) = None) ->
    let r := boundStep prop b state W in
    let after := states (snd r) !!! state in
    nextState (fst r) = state
    /\ after = (if isValidResponse response
                then Lodash.set (states W !!! state) prop response
                else states W !!! state)
    /\ controlSignal (fst r) = match response with
                               | VControl c => Some (type c)
                               | _ => None
                               end
    /\ nextSteps (fst r)
       = Some (resolveNextSteps (wizard (snd r)) after (getAssigned (wizard (snd r)))).
Proof.
  intros W prop b state response p W1 Hin Hprompt Hexit r after.
  pose proof (boundStep_normal_flow prop b state W response p W1 Hin Hprompt Hexit) as H.
  cbv zeta in H. fold r in H. fold after in H.
  destruct H as (Hr & Hafter & _). rewrite Hr. simpl. repeat split. exact Hafter.
Qed.

Lemma boundStep_answer_or_signal_witness :
  (let W := Demo.world (VStr "x") 1 false Demo.asking_name in
   let r := boundStep "name" (Demo.nameStep W) 0%nat W in
   states (snd r) !!! 0%nat = VObj [("name"%string, VStr "x")]
   /\ controlSignal (fst r) = None
   /\ nextSteps (fst r) = Some [BoundStepFn "advanced"])
  /\ (let W := Demo.world (VControl WIZARD_EXIT) 1 false Demo.asking_name in
      let r := boundStep "name" (Demo.nameStep W) 0%nat W in
      states (snd r) !!! 0%nat = VObj []
      /\ controlSignal (fst r) = Some Exit)
  /\ (let W := Demo.world (VControl WIZARD_BACK) 1 true Demo.asking_name in
      let r := boundStep "name" (Demo.nameStep W) 0%nat W in
      states (snd r) !!! 0%nat = VObj []
      /\ controlSignal (fst r) = Some Back).
Proof.
  split; [|split].
  - intros W r.
    pose proof (boundStep_answer_or_signal W "name" (Demo.nameStep W) 0%nat
                  (VStr "x")
                  (snd (fst (boundStep_prompt "name" (Demo.nameStep W) 0%nat W)))
                  (snd (boundStep_prompt "name" (Demo.nameStep W) 0%nat W))) as H.
    destruct H as (_ & Hafter & Hsignal & _).
    + vm_compute. eauto.
    + vm_compute. reflexivity.
    + intros E. discriminate E.
    + split; [exact Hafter|]. split; [exact Hsignal|]. vm_compute. reflexivity.
  - intros W r.
    pose proof (boundStep_answer_or_signal W "name" (Demo.nameStep W) 0%nat
                  (VControl WIZARD_EXIT)
                  (snd (fst (boundStep_prompt "name" (Demo.nameStep W) 0%nat W)))
                  (snd (boundStep_prompt "name" (Demo.nameStep W) 0%nat W))) as H.
    destruct H as (_ & Hafter & Hsignal & _).
    + vm_compute. eauto.
    + vm_compute. reflexivity.
    + intros _. vm_compute. reflexivity.
    + split; [exact Hafter | exact Hsignal].
  - intros W r.
    pose proof (boundStep_answer_or_signal W "name" (Demo.nameStep W) 0%nat
                  (VControl WIZARD_BACK)
                  (snd (fst (boundStep_prompt "name" (Demo.nameStep W) 0%nat W)))
                  (snd (boundStep_prompt "name" (Demo.nameStep W) 0%nat W))) as H.
    destruct H as (_ & Hafter & Hsignal & _).
    + vm_compute. eauto.
    + vm_compute. reflexivity.
    + intros E. discriminate E.
    + split; [exact Hafter | exact Hsignal].
Defined.

(** C4.  When the response is the constant [WIZARD_EXIT] and an exit step
    is configured, the bound step returns the state unchanged, with the exit
    step as the only next step and no control signal.  [WIZARD_FORCE_EXIT]
    is another object with the same tag [Exit]: with that response the step
    does not go to the exit step, even when one is configured, and surfaces
    [Exit]. *)
Theorem boundStep_exit_confirmation :
  forall (W : World) (prop : string) (b : BoundStep) (state : loc)
         (response : value) (p : Prompter.t) (W1 : World),
    is_Some (states W !! state) ->
    boundStep_prompt prop b state W = (response, p, W1) ->
    let r := boundStep prop b state W in
    (forall exit : StepFunction,
        response = VControl WIZARD_EXIT ->
        exitStep (wizard W) = Some exit ->
        fst r = {| nextState := state; nextSteps := Some [exit];
                   controlSignal := None |}
        /\ states (snd r) !!! state = states W !!! state)
    /\ (response = VControl WIZARD_FORCE_EXIT ->
        fst r = {| nextState := state;
                   nextSteps := Some (resolveNextSteps (wizard (snd r))
                                        (states W !!! state)
                                        (getAssigned (wizard (snd r))));
                   controlSignal := Some Exit |}
        /\ ~ In ExitStepFn (resolveNextSteps (wizard (snd r)) (states W !!! state)
                              (getAssigned (wizard (snd r))))
        /\ states (snd r) !!! state = states W !!! state)
    /\ type WIZARD_FORCE_EXIT = type WIZARD_EXIT
    /\ WIZARD_FORCE_EXIT <> WIZARD_EXIT.
Proof.
  intros W prop b state response p W1 Hin Hprompt r.
  split; [|split; [|split; [reflexivity | discriminate]]].
  - intros exit -> Hexit. subst r.
    pose proof (boundStep_prompt_frame prop b state W) as Hf. cbv zeta in Hf.
    rewrite Hprompt in Hf. simpl in Hf. destruct Hf as [Hs Hw].
    rewrite (boundStep_split _ _ _ _ _ _ _ Hprompt).
    rewrite (boundStep_result_exit prop state W1 exit)
      by (rewrite Hw; exact Hexit).
    simpl. split; [reflexivity|]. rewrite Hs. by apply existing_state_kept.
  - intros ->.
    pose proof (boundStep_normal_flow prop b state W (VControl WIZARD_FORCE_EXIT)
                  p W1 Hin Hprompt) as H.
    cbv zeta in H. fold r in H.
    destruct H as (Hr & Hafter & _); [discriminate|].
    simpl in Hafter. rewrite Hafter in Hr.
    split; [exact Hr|]. split; [apply resolveNextSteps_only_bound_steps | exact Hafter].
Qed.

Lemma boundStep_exit_confirmation_witness :
  (let W := Demo.world (VControl WIZARD_EXIT) 1 true Demo.asking_name in
   let r := boundStep "name" (Demo.nameStep W) 0%nat W in
   fst r = {| nextState := 0%nat; nextSteps := Some [ExitStepFn];
              controlSignal := None |}
   /\ states (snd r) !!! 0%nat = VObj [])
  /\ (let W := Demo.world (VControl WIZARD_FORCE_EXIT) 1 true Demo.asking_name in
      let r := boundStep "name" (Demo.nameStep W) 0%nat W in
      fst r = {| nextState := 0%nat; nextSteps := Some [BoundStepFn "advanced"];
                 controlSignal := Some Exit |}
      /\ states (snd r) !!! 0%nat = VObj []).
Proof.
  split.
  - intros W r.
    pose proof (boundStep_exit_confirmation W "name" (Demo.nameStep W) 0%nat
                  (VControl WIZARD_EXIT)
                  (snd (fst (boundStep_prompt "name" (Demo.nameStep W) 0%nat W)))
                  (snd (boundStep_prompt "name" (Demo.nameStep W) 0%nat W))) as H.
    destruct H as (Hexit & _).
    + vm_compute. eauto.
    + vm_compute. reflexivity.
    + exact (Hexit ExitStepFn eq_refl eq_refl).
  - intros W r.
    pose proof (boundStep_exit_confirmation W "name" (Demo.nameStep W) 0%nat
                  (VControl WIZARD_FORCE_EXIT)
                  (snd (fst (boundStep_prompt "name" (Demo.nameStep W) 0%nat W)))
                  (snd (boundStep_prompt "name" (Demo.nameStep W) 0%nat W))) as H.
    destruct H as (_ & Hforce & _).
    + vm_compute. eauto.
    + vm_compute. reflexivity.
    + destruct (Hforce eq_refl) as (Hr & _ & Hstate).
      split; [|exact Hstate]. etransitivity; [exact Hr|]. vm_compute. reflexivity.
Defined.

(** C10.  When the prompter resolves to [undefined], the bound step returns
    the input state unchanged, no control signal, and the next steps of a
    new resolution against that state: the result of a step that goes on
    with no answer recorded, with no [Back], [Retry] or [Exit]. *)
Theorem boundStep_undefined_continues :
  forall (W : World) (prop : string) (b : BoundStep) (state : loc)
         (p : Prompter.t) (W1 : World),
    is_Some (states W !! state) ->
    boundStep_prompt prop b state W = (VUndefined, p, W1) ->
    boundStep prop b state W
    = ({| nextState := state;
          nextSteps := Some (resolveNextSteps (wizard W1) (states W !!! state)
                               (getAssigned (wizard W1)));
          controlSignal := None |}, W1)
    /\ states W1 !!! state = states W !!! state.
Proof.
  intros W prop b state p W1 Hin Hprompt.
  pose proof (boundStep_prompt_frame prop b state W) as Hf. cbv zeta in Hf.
  rewrite Hprompt in Hf. simpl in Hf. destruct Hf as [Hs Hw].
  assert (Hkept : states W1 !!! state = states W !!! state).
  { rewrite Hs. by apply existing_state_kept. }
  split; [|exact Hkept].
  rewrite (boundStep_split _ _ _ _ _ _ _ Hprompt).
  rewrite boundStep_result_normal by discriminate.
  unfold record_response. simpl. rewrite Hkept. reflexivity.
Qed.

Lemma boundStep_undefined_continues_witness :
  let W := Demo.world VUndefined 1 false Demo.asking_name in
  let r := boundStep "name" (Demo.nameStep W) 0%nat W in
  controlSignal (fst r) = None
  /\ nextState (fst r) = 0%nat
  /\ states (snd r) !!! 0%nat = VObj [].
Proof.
  intros W r.
  pose proof (boundStep_undefined_continues W "name" (Demo.nameStep W) 0%nat
                (snd (fst (boundStep_prompt "name" (Demo.nameStep W) 0%nat W)))
                (snd (boundStep_prompt "name" (Demo.nameStep W) 0%nat W))) as H.
  destruct H as (Hr & Hstate).
  - vm_compute. eauto.
  - vm_compute. reflexivity.
  - subst r. rewrite Hr. simpl. split; [reflexivity|]. split; [reflexivity|].
    etransitivity; [exact Hstate|]. vm_compute. reflexivity.
Defined.

(** * Properties of the further parts *)

(** ** Binding *)

Lemma assignSteps_forEach (W : World) :
  assignSteps W = forEach (WizardForm.properties (_form (wizard W))) assignStep W.
Proof. reflexivity. Qed.

Lemma has_key_In (prop : string) (m : list (string * BoundStep)) :
  has_key prop m = true <-> In prop (map fst m).
Proof.
  unfold has_key. rewrite existsb_exists. split.
  - intros (x & Hx & E). apply String.eqb_eq in E. by subst.
  - intros H. exists prop. split; [done | apply String.eqb_refl].
Qed.

Lemma existsb_eqb_In (p : string) (l : list string) :
  existsb (String.eqb p) l = true <-> In p l.
Proof.
  rewrite existsb_exists. split.
  - intros (x & Hx & E). apply String.eqb_eq in E. by subst.
  - intros H. exists p. split; [done | apply String.eqb_refl].
Qed.

Ltac run_bind :=
  unfold assignStep, createBoundStep, bind, ret, getWizard, modifyWizard,
    allocCache; simpl.

(** What binding one property changes. *)
Lemma assignStep_effect (prop : string) (W : World) :
  let W' := snd (assignStep prop W) in
  _form (wizard W') = _form (wizard W)
  /\ states W' = states W
  /\ map fst (boundSteps (wizard W'))
     = map fst (boundSteps (wizard W))
       ++ match WizardForm.getPrompterProvider (_form (wizard W)) prop with
          | Some _ => if has_key prop (boundSteps (wizard W)) then [] else [prop]
          | None => []
          end
  /\ (exists added, boundSteps (wizard W') = boundSteps (wizard W) ++ added)
  /\ caches (wizard W) ⊆ caches (wizard W')
  /\ stepCaches W ⊆ stepCaches W'
  /\ (caches_bound W -> caches_bound W').
Proof.
  assert (Hsame : forall V : World,
             _form (wizard V) = _form (wizard V)
             /\ states V = states V
             /\ map fst (boundSteps (wizard V)) = map fst (boundSteps (wizard V)) ++ []
             /\ (exists added, boundSteps (wizard V) = boundSteps (wizard V) ++ added)
             /\ caches (wizard V) ⊆ caches (wizard V)
             /\ stepCaches V ⊆ stepCaches V
             /\ (caches_bound V -> caches_bound V)).
  { intros V. rewrite app_nil_r.
    split; [done|]. split; [done|]. split; [done|].
    split; [exists []; by rewrite app_nil_r|]. split; [done|]. split; [done|]. done. }
  run_bind.
  destruct (WizardForm.getPrompterProvider (_form (wizard W)) prop) as [provider|];
    [|apply Hsame].
  destruct (has_key prop (boundSteps (wizard W))) eqn:Hk; simpl; [apply Hsame|].
  destruct (caches (wizard W) !! prop) as [c|] eqn:Hc; simpl.
  - rewrite map_app.
    split; [done|]. split; [done|]. split; [done|].
    split; [by eexists|]. split; [done|]. split; [done|].
    unfold caches_bound. simpl. intros H. apply Forall_app. split; [exact H|].
    by repeat constructor.
  - rewrite map_app.
    split; [done|]. split; [done|]. split; [done|].
    split; [by eexists|].
    split; [by apply insert_subseteq|].
    split; [apply insert_subseteq, not_elem_of_dom, is_fresh|].
    unfold caches_bound. simpl. intros H. apply Forall_app. split.
    + eapply Forall_impl; [exact H|]. intros [q b] Hq. simpl in *.
      rewrite lookup_insert_ne; [done|]. intros ->. congruence.
    + repeat constructor. simpl. apply lookup_insert_eq.
Qed.

Lemma forEach_assignStep_effect (props : list string) :
  forall W : World,
    let W' := snd (forEach props assignStep W) in
    _form (wizard W') = _form (wizard W)
    /\ states W' = states W
    /\ map fst (boundSteps (wizard W'))
       = map fst (boundSteps (wizard W))
         ++ newly_bound (_form (wizard W)) (map fst (boundSteps (wizard W))) props
    /\ (exists added, boundSteps (wizard W') = boundSteps (wizard W) ++ added)
    /\ caches (wizard W) ⊆ caches (wizard W')
    /\ stepCaches W ⊆ stepCaches W'
    /\ (caches_bound W -> caches_bound W').
Proof.
  induction props as [|p rest IH]; intros W; simpl.
  - rewrite app_nil_r.
    split; [done|]. split; [done|]. split; [done|].
    split; [exists []; by rewrite app_nil_r|]. split; [done|]. split; [done|]. done.
  - unfold bind.
    pose proof (assignStep_effect p W) as H1. cbv zeta in H1.
    destruct (assignStep p W) as [[] W1]. simpl in H1.
    destruct H1 as (Hf & Hs & Hk & [a1 Ha1] & Hc & Hsc & Hinv).
    specialize (IH W1). cbv zeta in IH.
    destruct IH as (Hf2 & Hs2 & Hk2 & [a2 Ha2] & Hc2 & Hsc2 & Hinv2).
    split; [congruence|]. split; [congruence|]. split.
    { rewrite Hk2, Hk, Hf.
      destruct (WizardForm.getPrompterProvider (_form (wizard W)) p); simpl;
        [|by rewrite app_nil_r].
      unfold has_key.
      destruct (existsb (String.eqb p) (map fst (boundSteps (wizard W)))); simpl;
        [by rewrite app_nil_r | by rewrite <- app_assoc]. }
    split; [exists (a1 ++ a2); rewrite Ha2, Ha1; by rewrite app_assoc|].
    split; [by etransitivity|]. split; [by etransitivity|]. auto.
Qed.

Lemma newly_bound_covers (form : WizardForm.t) (props : list string) :
  forall (bound : list string) (p : string),
    In p props ->
    is_Some (WizardForm.getPrompterProvider form p) ->
    In p (bound ++ newly_bound form bound props).
Proof.
  induction props as [|q rest IH]; intros bound p Hin Hprov; [done|].
  simpl. destruct Hin as [->|Hin].
  - destruct Hprov as [f ->].
    destruct (existsb (String.eqb p) bound) eqn:E.
    + apply in_or_app. left. by apply existsb_eqb_In.
    + apply in_or_app. right. by left.
  - destruct (WizardForm.getPrompterProvider form q); [|by apply IH].
    destruct (existsb (String.eqb q) bound); [by apply IH|].
    specialize (IH (bound ++ [q]) p Hin Hprov).
    rewrite <- app_assoc in IH. exact IH.
Qed.

Lemma newly_bound_distinct (form : WizardForm.t) (props : list string) :
  forall bound : list string,
    List.NoDup bound -> List.NoDup (bound ++ newly_bound form bound props).
Proof.
  induction props as [|q rest IH]; intros bound Hnd; simpl.
  - by rewrite app_nil_r.
  - destruct (WizardForm.getPrompterProvider form q); [|by apply IH].
    destruct (existsb (String.eqb q) bound) eqn:E; [by apply IH|].
    change (q :: newly_bound form (bound ++ [q]) rest)
      with ([q] ++ newly_bound form (bound ++ [q]) rest).
    rewrite app_assoc. apply IH.
    apply NoDup_ListNoDup, NoDup_app. split; [by apply NoDup_ListNoDup|].
    split; [|apply NoDup_singleton].
    intros x Hx Hq. apply list_elem_of_In in Hx.
    apply list_elem_of_In in Hq. destruct Hq as [<-|[]].
    apply existsb_eqb_In in Hx. congruence.
Qed.

Lemma newly_bound_sound (form : WizardForm.t) (props : list string) :
  forall (bound : list string) (p : string),
    In p (newly_bound form bound props) ->
    In p props
    /\ is_Some (WizardForm.getPrompterProvider form p)
    /\ ~ In p bound.
Proof.
  induction props as [|q rest IH]; intros bound p Hin; [done|].
  simpl in Hin.
  destruct (WizardForm.getPrompterProvider form q) as [f|] eqn:Hq.
  - destruct (existsb (String.eqb q) bound) eqn:E.
    + destruct (IH _ _ Hin) as (H1 & H2 & H3). split; [by right | done].
    + destruct Hin as [<-|Hin].
      * split; [by left|]. split; [by eexists|].
        intros H. apply existsb_eqb_In in H. congruence.
      * destruct (IH _ _ Hin) as (H1 & H2 & H3). split; [by right|].
        split; [done|]. intros H. apply H3, in_or_app. by left.
  - destruct (IH _ _ Hin) as (H1 & H2 & H3). split; [by right | done].
Qed.

Lemma newly_bound_once (form : WizardForm.t) (props : list string) :
  forall bound : list string, List.NoDup (newly_bound form bound props).
Proof.
  induction props as [|q rest IH]; intros bound; simpl; [constructor|].
  destruct (WizardForm.getPrompterProvider form q); [|apply IH].
  destruct (existsb (String.eqb q) bound); [apply IH|].
  constructor; [|apply IH].
  intros Hq. apply newly_bound_sound in Hq. destruct Hq as (_ & _ & Hn).
  apply Hn, in_or_app. right. by left.
Qed.

(** A pass over properties that are all bound already does nothing. *)
Lemma forEach_assignStep_bound (props : list string) (W : World) :
  (forall p, In p props ->
             is_Some (WizardForm.getPrompterProvider (_form (wizard W)) p) ->
             has_key p (boundSteps (wizard W)) = true) ->
  forEach props assignStep W = (tt, W).
Proof.
  induction props as [|q rest IH]; intros H; [done|].
  simpl. unfold bind.
  assert (Hq : assignStep q W = (tt, W)).
  { unfold assignStep, bind, ret, getWizard.
    destruct (WizardForm.getPrompterProvider (_form (wizard W)) q) eqn:E; [|done].
    rewrite (H q); [done | by left | by eexists]. }
  rewrite Hq. apply IH. intros p Hp. apply H. by right.
Qed.

(** X1.  [assignSteps] keeps the steps that are bound and adds, after
    them, one step for every property of the form that has a provider and
    is not bound yet, in the order of the form and without repetition; a
    property with no provider is never bound. *)
Theorem assignSteps_binds_in_form_order :
  forall W : World,
    let W' := snd (assignSteps W) in
    let keys := map fst (boundSteps (wizard W)) in
    let added := newly_bound (_form (wizard W)) keys
                   (WizardForm.properties (_form (wizard W))) in
    map fst (boundSteps (wizard W')) = keys ++ added
    /\ (exists steps, boundSteps (wizard W') = boundSteps (wizard W) ++ steps)
    /\ (forall p, In p added <->
                  In p (WizardForm.properties (_form (wizard W)))
                  /\ is_Some (WizardForm.getPrompterProvider (_form (wizard W)) p)
                  /\ ~ In p keys)
    /\ List.NoDup added.
Proof.
  intros W W' keys added. subst W'. rewrite assignSteps_forEach.
  pose proof (forEach_assignStep_effect
                (WizardForm.properties (_form (wizard W))) W) as H.
  cbv zeta in H. destruct H as (_ & _ & Hk & Hadd & _).
  split; [exact Hk|]. split; [exact Hadd|]. split.
  - intros p. split; [apply newly_bound_sound|].
    intros (Hin & Hprov & Hnot).
    destruct (in_app_or _ _ _ (newly_bound_covers _ _ keys p Hin Hprov)); done.
  - apply newly_bound_once.
Qed.

(** X2.  When no property is bound twice, none is after [assignSteps],
    even if the form lists a property more than once. *)
Theorem assignSteps_keeps_keys_distinct :
  forall W : World,
    List.NoDup (map fst (boundSteps (wizard W))) ->
    List.NoDup (map fst (boundSteps (wizard (snd (assignSteps W))))).
Proof.
  intros W Hnd. rewrite assignSteps_forEach.
  pose proof (forEach_assignStep_effect
                (WizardForm.properties (_form (wizard W))) W) as H.
  cbv zeta in H. destruct H as (_ & _ & Hk & _).
  rewrite Hk. by apply newly_bound_distinct.
Qed.

Lemma assignSteps_keeps_keys_distinct_witness :
  List.NoDup
    (map fst (boundSteps (wizard (Demo.world (VStr "x") 1 false Demo.idle)))).
Proof.
  apply (assignSteps_keeps_keys_distinct
           {| wizard := new_Wizard (Demo.opts (VStr "x") 1 false) Demo.idle;
              states := {[ 0%nat := VObj [] ]}; stepCaches := ∅ |}).
  simpl. constructor.
Defined.

(** X3.  Calling [assignSteps] again changes nothing: every property with
    a provider is bound by the first call. *)
Theorem assignSteps_again_binds_nothing :
  forall W : World,
    assignSteps (snd (assignSteps W)) = (tt, snd (assignSteps W)).
Proof.
  intros W. rewrite (assignSteps_forEach (snd (assignSteps W))).
  rewrite (assignSteps_forEach W).
  pose proof (forEach_assignStep_effect
                (WizardForm.properties (_form (wizard W))) W) as H.
  cbv zeta in H. destruct H as (Hf & _ & Hk & _).
  rewrite Hf. apply forEach_assignStep_bound. rewrite Hf.
  intros p Hin Hprov. apply has_key_In. rewrite Hk.
  by apply newly_bound_covers.
Qed.

(** X4.  [assignSteps] gives every step it binds the cache object that the
    table holds for its property: an entry that is in the table is reused
    and kept, a missing one is created, and no existing cache object or
    state object is written to.  So when the bound steps agree with the
    table before the call, they agree with it after. *)
Theorem assignSteps_steps_hold_table_caches :
  forall W : World,
    caches_bound W ->
    let W' := snd (assignSteps W) in
    caches_bound W'
    /\ caches (wizard W) ⊆ caches (wizard W')
    /\ stepCaches W ⊆ stepCaches W'
    /\ states W' = states W.
Proof.
  intros W Hinv W'. subst W'. rewrite assignSteps_forEach.
  pose proof (forEach_assignStep_effect
                (WizardForm.properties (_form (wizard W))) W) as H.
  cbv zeta in H. destruct H as (_ & Hs & _ & _ & Hc & Hsc & Hkeep).
  split; [by apply Hkeep|]. split; [done|]. split; done.
Qed.

Lemma assignSteps_steps_hold_table_caches_witness :
  caches_bound (Demo.world (VStr "x") 1 false Demo.idle).
Proof.
  apply (assignSteps_steps_hold_table_caches
           {| wizard := new_Wizard (Demo.opts (VStr "x") 1 false) Demo.idle;
              states := {[ 0%nat := VObj [] ]}; stepCaches := ∅ |}).
  constructor.
Defined.

(** ** Assigned properties and step resolution *)

Lemma getAssigned_spec (w : Wizard) (p : string) :
  p ∈ getAssigned w
  <-> In p (map fst (boundSteps w))
      /\ Controller.containsStep (stateController w) (BoundStepFn p) = true.
Proof.
  unfold getAssigned. rewrite elem_of_list_to_set, list_elem_of_In, filter_In.
  reflexivity.
Qed.

Lemma resolve_running_sound form ctl state (props : list string) :
  forall (runningSet : gset string) (p : string),
    In p (resolve_running form ctl state props runningSet) ->
    In p props /\ Controller.containsStep ctl (BoundStepFn p) = false.
Proof.
  induction props as [|q rest IH]; intros runningSet p Hin; [done|].
  simpl in Hin.
  destruct (Controller.containsStep ctl (BoundStepFn q)) eqn:Hq.
  - destruct (IH _ _ Hin). split; [by right | done].
  - destruct (WizardForm.canShowProperty form q state runningSet).
    + destruct Hin as [<-|Hin]; [split; [by left | done]|].
      destruct (IH _ _ Hin). split; [by right | done].
    + destruct (IH _ _ Hin). split; [by right | done].
Qed.

Lemma resolve_running_sublist form ctl state (props : list string) :
  forall runningSet : gset string,
    resolve_running form ctl state props runningSet `sublist_of` props.
Proof.
  induction props as [|q rest IH]; intros runningSet; simpl; [constructor|].
  destruct (Controller.containsStep ctl (BoundStepFn q)).
  - apply sublist_cons, IH.
  - destruct (WizardForm.canShowProperty form q state runningSet).
    + apply sublist_skip, IH.
    + apply sublist_cons, IH.
Qed.

(** X5.  Every step that [resolveNextSteps] returns is the bound step of a
    bound property that the controller does not contain; with the default
    set it is none of the assigned properties.  A step is thus never
    scheduled while the controller still holds it. *)
Theorem resolveNextSteps_schedules_new_steps_only :
  forall (w : Wizard) (state : value) (assigned : gset string),
    Forall (fun s : StepFunction =>
              Controller.containsStep (stateController w) s = false
              /\ exists p, s = BoundStepFn p
                           /\ In p (map fst (boundSteps w))
                           /\ p ∉ getAssigned w)
           (resolveNextSteps w state assigned).
Proof.
  intros w state assigned. rewrite resolveNextSteps_running.
  apply Forall_forall. intros s Hs. apply list_elem_of_In, in_map_iff in Hs.
  destruct Hs as (p & <- & Hp). apply resolve_running_sound in Hp.
  destruct Hp as [Hin Hc]. split; [exact Hc|].
  exists p. split; [done|]. split; [done|].
  rewrite getAssigned_spec. intros [_ Ht]. congruence.
Qed.

(** X6.  The branch that [resolveNextSteps] returns lists bound steps in
    binding order, each at most as often as it is bound: it is a
    subsequence of the bound steps, so it is never longer than the number
    of bound steps, and it has no step twice when no property is bound
    twice. *)
Theorem resolveNextSteps_keeps_binding_order :
  forall (w : Wizard) (state : value) (assigned : gset string),
    let branch := resolveNextSteps w state assigned in
    let bound := map BoundStepFn (map fst (boundSteps w)) in
    branch `sublist_of` bound
    /\ (List.length branch <= List.length (boundSteps w))%nat
    /\ (List.NoDup (map fst (boundSteps w)) -> List.NoDup branch).
Proof.
  intros w state assigned branch bound.
  assert (Hsub : branch `sublist_of` bound).
  { subst branch bound. rewrite resolveNextSteps_running.
    apply (fmap_sublist BoundStepFn), resolve_running_sublist. }
  split; [exact Hsub|]. split.
  - apply sublist_length in Hsub. subst bound.
    by rewrite !length_map in Hsub.
  - intros Hnd. apply NoDup_ListNoDup.
    refine (sublist_NoDup _ bound _ Hsub).
    subst bound. apply NoDup_fmap_2; [by intros ? ? [=]|].
    by apply NoDup_ListNoDup.
Qed.

Lemma resolve_running_filter form ctl state (props : list string) :
  (forall p a a', WizardForm.canShowProperty form p state a
                  = WizardForm.canShowProperty form p state a') ->
  forall runningSet assigned : gset string,
    resolve_running form ctl state props runningSet
    = List.filter
        (fun p => WizardForm.canShowProperty form p state assigned
                  && negb (Controller.containsStep ctl (BoundStepFn p)))
        props.
Proof.
  intros Hfree. induction props as [|q rest IH]; intros runningSet assigned; [done|].
  simpl. rewrite (Hfree q assigned runningSet).
  destruct (Controller.containsStep ctl (BoundStepFn q)); simpl.
  - rewrite andb_false_r. apply IH.
  - rewrite andb_true_r.
    destruct (WizardForm.canShowProperty form q state runningSet);
      [f_equal|]; apply IH.
Qed.

(** X7.  When the visibility predicate of the form does not look at the
    assigned set for this state, the order of binding plays no part in
    what is scheduled: the branch is the bound properties that can be
    shown and that the controller does not contain, whatever the initial
    assigned set. *)
Theorem resolveNextSteps_without_assigned_set :
  forall (w : Wizard) (state : value) (assigned : gset string),
    (forall p a a', WizardForm.canShowProperty (_form w) p state a
                    = WizardForm.canShowProperty (_form w) p state a') ->
    resolveNextSteps w state assigned
    = map BoundStepFn (visible_unscheduled w state ∅).
Proof.
  intros w state assigned Hfree. rewrite resolveNextSteps_running.
  unfold visible_unscheduled. f_equal. by apply resolve_running_filter.
Qed.

Lemma resolveNextSteps_without_assigned_set_witness :
  let w := wizard (Demo.world_x (VStr "x")) in
  resolveNextSteps w (VObj [("name"%string, VStr "x")]) {["name"%string]}
  = map BoundStepFn (visible_unscheduled w (VObj [("name"%string, VStr "x")]) ∅)
  /\ visible_unscheduled w (VObj [("name"%string, VStr "x")]) ∅ = ["advanced"%string].
Proof.
  intros w. split; [|vm_compute; reflexivity].
  apply (resolveNextSteps_without_assigned_set w). intros p a a'. reflexivity.
Defined.

(** ** [run] *)




(** ** The exit step *)

Lemma didExit_responses (response : value) :
  didExit response = true <-> In response exit_responses.
Proof.
  unfold didExit, exit_responses. split.
  - rewrite andb_true_iff. intros [_ H].
    destruct response as [| |b|n|s|c|fs]; try discriminate H.
    + destruct b; [by left | discriminate H].
    + destruct c; try discriminate H; simpl; tauto.
  - intros [<-|[<-|[<-|[]]]]; reflexivity.
Qed.

(** X9.  The exit step leaves the wizard, the state objects and the caches
    as they are, returns the state it was given and no next steps, and
    always gives a control signal: [Exit] when the prompter answered [true],
    [WIZARD_EXIT] or [WIZARD_FORCE_EXIT], and [Back] for every other
    response, [undefined], [false], [WIZARD_BACK] and [WIZARD_RETRY]
    included.  The prompter is disposed exactly when the signal is [Exit]. *)
Theorem exitStep_confirms_or_goes_back :
  forall (setSteps : Z -> Z -> Prompter.t -> Prompter.t)
         (provider : value -> Prompter.t) (state : loc) (W : World),
    let asked := setSteps (currentStep (wizard W)) (totalSteps (wizard W))
                   (provider (states W !!! state)) in
    let response := fst (fst (Prompter.promptControl asked emptyCache)) in
    let r := exitStep_run setSteps provider state W in
    let result := fst (fst r) in
    let disposals := Prompter.disposed (snd (fst r)) in
    snd r = W
    /\ nextState result = state
    /\ nextSteps result = None
    /\ (controlSignal result = Some Exit <-> In response exit_responses)
    /\ (controlSignal result = Some Back <-> ~ In response exit_responses)
    /\ (disposals = S (Prompter.disposed asked) <-> In response exit_responses)
    /\ (disposals = Prompter.disposed asked <-> ~ In response exit_responses)
    /\ Forall (fun v => ~ In v exit_responses)
         [VUndefined; VNull; VBool false; VStr "yes"; VControl WIZARD_BACK;
          VControl WIZARD_RETRY; VControl (OtherControl 0 Exit)].
Proof.
  intros setSteps provider state W asked response r result disposals.
  subst disposals result r. unfold exitStep_run, bind, ret, getWizard, readState.
  simpl. fold asked.
  change (Prompter.answer _) with response.
  pose proof (didExit_responses response) as Hd.
  destruct (didExit response); simpl.
  - assert (Hin : In response exit_responses) by (by apply Hd).
    repeat (split;
            [first [ reflexivity
                   | split; intros X;
                     first [ reflexivity | assumption | discriminate X
                           | contradiction | exfalso; lia ] ]|]).
    repeat (apply List.Forall_cons; [intros [H|[H|[H|[]]]]; discriminate H|]).
    apply List.Forall_nil.
  - assert (Hout : ~ In response exit_responses).
    { intros H. apply Hd in H. discriminate. }
    repeat (split;
            [first [ reflexivity
                   | split; intros X;
                     first [ reflexivity | assumption | discriminate X
                           | contradiction | exfalso; lia ] ]|]).
    repeat (apply List.Forall_cons; [intros [H|[H|[H|[]]]]; discriminate H|]).
    apply List.Forall_nil.
Qed.

(** ** More on [promptUser] *)

(** The prompter as it is when the prompt starts. *)
Lemma promptUser_before_prompter sw provider implied W :
  let c := stepCaches W !!! stepCache sw in
  let off := restored_offset sw W in
  let configured :=
    Prompter.configure
      {| Prompter.cache := stepCache sw;
         Prompter.stepEstimator := estimator sw;
         Prompter.steps :=
           (fst off + Controller.currentStep (stateController (wizard W)),
            snd off + Controller.totalSteps (stateController (wizard W))) |}
      (provider sw) in
  fst (promptUser_before sw provider implied W)
  = if negb (is_undefined (picked c)) then Prompter.set_recentItem (picked c) configured
    else if negb (is_undefined implied) then Prompter.set_recentItem implied configured
    else configured.
Proof. unfold restored_offset. run_prompt. split_ifs; reflexivity. Qed.

(** X10.  When the prompt starts, the prompter's [recentItem] is the
    [picked] value of the cache if there is one; only without it, the
    implied response if there is one; and otherwise what the provider set.
    A cached pick thus takes precedence over the implicit state. *)
Theorem promptUser_preselects_cached_pick :
  forall (sw : StateWithCache) (provider : PrompterProvider) (implied : value)
         (W : World),
    let c := stepCaches W !!! stepCache sw in
    Prompter.recentItem (fst (promptUser_before sw provider implied W))
    = if negb (is_undefined (picked c)) then picked c
      else if negb (is_undefined implied) then implied
      else Prompter.recentItem (provider sw).
Proof.
  intros sw provider implied W c.
  pose proof (promptUser_before_prompter sw provider implied W) as H.
  cbv zeta in H. rewrite H. fold c.
  destruct (negb (is_undefined (picked c))); [done|].
  destruct (negb (is_undefined implied)); done.
Qed.

Lemma promptUser_caches_frame sw provider implied W :
  delete (stepCache sw) (stepCaches (snd (promptUser sw provider implied W)))
  = delete (stepCache sw) (stepCaches W).
Proof.
  run_prompt. split_ifs; simpl;
    rewrite ?insert_insert_eq, ?delete_insert_eq; reflexivity.
Qed.

(** X11.  [promptUser] writes to the cache object of its property and to
    the step offset of the wizard, and to nothing else: every other cache
    object, every state object, the cache table and the bound steps are as
    before. *)
Theorem promptUser_writes_own_cache_only :
  forall (sw : StateWithCache) (provider : PrompterProvider) (implied : value)
         (W : World),
    let W' := snd (promptUser sw provider implied W) in
    delete (stepCache sw) (stepCaches W') = delete (stepCache sw) (stepCaches W)
    /\ states W' = states W
    /\ wizard W' = with_stepOffset (_stepOffset (wizard W')) (wizard W).
Proof.
  intros sw provider implied W W'.
  pose proof (promptUser_frame sw provider implied W) as H. cbv zeta in H.
  destruct H as [Hs Hw].
  split; [apply promptUser_caches_frame|]. split; [exact Hs | exact Hw].
Qed.

(** X12.  Of what the prompter left in the cache, the wizard changes one
    field: [picked] after a valid answer, [stepOffset] after any other
    response.  In particular a [Back], a [Retry], an exit or a cancelled
    prompt keeps the pick of an earlier answer and the prompter's own
    keys. *)
Theorem promptUser_changes_one_cache_field :
  forall (sw : StateWithCache) (provider : PrompterProvider) (implied : value)
         (W : World),
    let before := promptUser_before sw provider implied W in
    let settled := promptUser_await sw (fst before) (snd before) in
    let left := stepCaches (snd settled) !!! stepCache sw in
    let final := stepCaches (snd (promptUser sw provider implied W)) !!! stepCache sw in
    extra final = extra left
    /\ (if isValidResponse (fst (fst settled))
        then stepOffset final = stepOffset left
        else picked final = picked left).
Proof.
  intros sw provider implied W before settled left final.
  pose proof (promptUser_answer_and_cache sw provider implied W) as H.
  cbv zeta in H. destruct H as [_ H].
  fold before in H. fold settled in H. fold left in H. fold final in H.
  rewrite H. destruct (isValidResponse (fst (fst settled))); done.
Qed.

(** The offset a later prompt for the same property starts from. *)
Lemma promptUser_then_restored sw provider implied W :
  let before := promptUser_before sw provider implied W in
  let settled := promptUser_await sw (fst before) (snd before) in
  let left := stepCaches (snd settled) !!! stepCache sw in
  let after := promptUser sw provider implied W in
  restored_offset sw (snd after)
  = if isValidResponse (fst (fst settled))
    then default (_stepOffset (wizard (snd after))) (stepOffset left)
    else _stepOffset (wizard (snd after)).
Proof.
  intros before settled left after.
  pose proof (promptUser_answer_and_cache sw provider implied W) as H.
  cbv zeta in H. destruct H as [_ H].
  fold before in H. fold settled in H. fold left in H. fold after in H.
  unfold restored_offset. rewrite H.
  destruct (isValidResponse (fst (fst settled))); reflexivity.
Qed.

(** X13.  After a response that is not a valid answer, the next prompt for
    the same property does not restore an offset: it starts from the
    wizard's offset as the first prompt advanced it, the offset that
    prompt started from plus [prompter.totalSteps - 1]. *)
Theorem promptUser_recounts_after_signal :
  forall (sw : StateWithCache) (provider : PrompterProvider) (implied : value)
         (W : World),
    isValidResponse (fst (fst (promptUser sw provider implied W))) = false ->
    let after := promptUser sw provider implied W in
    let advance := Prompter.totalSteps (snd (fst after)) - 1 in
    restored_offset sw (snd after)
    = (fst (restored_offset sw W) + advance, snd (restored_offset sw W) + advance).
Proof.
  intros sw provider implied W Hinvalid after advance.
  pose proof (promptUser_then_restored sw provider implied W) as H.
  pose proof (promptUser_answer_and_cache sw provider implied W) as [Hans _].
  pose proof (promptUser_final_offset sw provider implied W) as [Hoff _].
  cbv zeta in H. fold after in H, Hoff. rewrite <- Hans, Hinvalid in H.
  rewrite H, Hoff. subst advance. f_equal; lia.
Qed.

Lemma promptUser_recounts_after_signal_witness :
  let W := Demo.world (VControl WIZARD_BACK) 3 false Demo.asking_name in
  let sw := {| sw_state := VObj []; stepCache := 0%nat;
               estimator := {| est_state := 1%nat; est_prop := "name" |} |} in
  restored_offset sw W = (0, 0)
  /\ restored_offset sw
       (snd (promptUser sw (fun _ => Demo.prompterAnswering (VControl WIZARD_BACK) 3)
               VUndefined W))
     = (2, 2).
Proof.
  intros W sw. split; [vm_compute; reflexivity|].
  etransitivity.
  - apply (promptUser_recounts_after_signal sw
             (fun _ => Demo.prompterAnswering (VControl WIZARD_BACK) 3) VUndefined W).
    vm_compute. reflexivity.
  - vm_compute. reflexivity.
Defined.

(** X14.  After a valid answer, when the prompter has left the saved
    offset in the cache, a later prompt for the same property is configured
    with the same step numbers as the first one while the controller's
    counters are the same, however far the first prompt advanced the
    wizard's offset; and it is pre-selected with the prompter's
    [recentItem] of the first one, when that is not [undefined]. *)
Theorem promptUser_resumes_with_saved_numbers :
  forall (sw : StateWithCache) (provider provider2 : PrompterProvider)
         (implied implied2 : value) (W : World),
    let before := promptUser_before sw provider implied W in
    let settled := promptUser_await sw (fst before) (snd before) in
    let after := promptUser sw provider implied W in
    let again := promptUser_before sw provider2 implied2 (snd after) in
    isValidResponse (fst (fst settled)) = true ->
    stepOffset (stepCaches (snd settled) !!! stepCache sw)
    = Some (restored_offset sw W) ->
    Prompter.steps <$> last (Prompter.configured (fst again))
    = Prompter.steps <$> last (Prompter.configured (fst before))
    /\ (is_undefined (Prompter.recentItem (snd (fst settled))) = false ->
        Prompter.recentItem (fst again) = Prompter.recentItem (snd (fst settled))).
Proof.
  intros sw provider provider2 implied implied2 W before settled after again
         Hvalid Hkept.
  pose proof (promptUser_then_restored sw provider implied W) as Hres.
  pose proof (promptUser_answer_and_cache sw provider implied W) as [_ Hcache].
  pose proof (promptUser_final_offset sw provider implied W) as [_ Hctl].
  cbv zeta in Hres. fold before in Hres, Hcache. fold settled in Hres, Hcache.
  fold after in Hres, Hcache, Hctl.
  rewrite Hvalid in Hres, Hcache. rewrite Hkept in Hres. simpl in Hres.
  pose proof (promptUser_before_prompter sw provider2 implied2 (snd after)) as H2.
  pose proof (promptUser_before_prompter sw provider implied W) as H1.
  cbv zeta in H1, H2. fold again in H2. fold before in H1.
  rewrite Hres, Hctl, Hcache in H2.
  set (r := Prompter.recentItem (snd (fst settled))) in *.
  clearbody r again before after. cbn [picked with_picked] in H2.
  split.
  - rewrite H1, H2.
    repeat match goal with
           | |- context [if ?c then _ else _] => destruct c
           end; simpl; rewrite !last_snoc; reflexivity.
  - intros Hdef. rewrite H2, Hdef. reflexivity.
Qed.

Lemma promptUser_resumes_with_saved_numbers_witness :
  let W := {| wizard := set_stepOffset (5, 7)
                          (wizard (Demo.world (VStr "x") 3 false Demo.asking_name));
              states := {[ 0%nat := VObj [] ]};
              stepCaches := stepCaches (Demo.world (VStr "x") 3 false Demo.asking_name) |} in
  let sw := {| sw_state := VObj []; stepCache := 0%nat;
               estimator := {| est_state := 1%nat; est_prop := "name" |} |} in
  let provider := fun _ : StateWithCache => Demo.prompterAnswering (VStr "x") 3 in
  let after := promptUser sw provider VUndefined W in
  let again := promptUser_before sw provider VUndefined (snd after) in
  _stepOffset (wizard (snd after)) = (7, 9)
  /\ Prompter.steps <$> last (Prompter.configured (fst again)) = Some (6, 9)
  /\ Prompter.recentItem (fst again) = VStr "x".
Proof.
  intros W sw provider after again.
  destruct (promptUser_resumes_with_saved_numbers sw provider provider
              VUndefined VUndefined W) as [Hsteps Hrecent].
  - vm_compute. reflexivity.
  - vm_compute. reflexivity.
  - split; [vm_compute; reflexivity|]. split.
    + etransitivity; [exact Hsteps|]. vm_compute. reflexivity.
    + etransitivity; [apply Hrecent; vm_compute; reflexivity|].
      vm_compute. reflexivity.
Defined.

(** ** More on the bound step *)



Lemma boundStep_result_frame prop state response W :
  let r := boundStep_result prop state response W in
  wizard (snd r) = wizard W
  /\ stepCaches (snd r) = stepCaches W
  /\ delete state (states (snd r)) = delete state (states W).
Proof.
  unfold boundStep_result, bind, ret, getWizard, readState, modifyState.
  destruct (same_control WIZARD_EXIT response);
    destruct (exitStep (wizard W));
    destruct (isValidResponse response); simpl;
    rewrite ?delete_insert_eq; done.
Qed.

(** X16.  Whatever the response, a bound step changes these things only:
    the step offset of the wizard, the cache object of its property, the
    state object it was given, and the store gains the clone made for the
    estimator.  The bound steps, the cache table, the form, the other cache
    objects and the other state objects are as before. *)
Theorem boundStep_changes_own_objects_only :
  forall (W : World) (prop : string) (b : BoundStep) (state : loc),
    let W' := snd (boundStep prop b state W) in
    wizard W' = with_stepOffset (_stepOffset (wizard W')) (wizard W)
    /\ delete (bs_stepCache b) (stepCaches W')
       = delete (bs_stepCache b) (stepCaches W)
    /\ delete state (states W')
       = delete state (<[fresh (dom (states W)) := states W !!! state]> (states W)).
Proof.
  intros W prop b state W'.
  destruct (boundStep_prompt prop b state W) as [[response p] W1] eqn:Hprompt.
  pose proof (boundStep_prompt_frame prop b state W) as Hf. cbv zeta in Hf.
  rewrite Hprompt in Hf. simpl in Hf. destruct Hf as [Hs Hw].
  assert (Hc : delete (bs_stepCache b) (stepCaches W1)
               = delete (bs_stepCache b) (stepCaches W)).
  { replace W1 with (snd (boundStep_prompt prop b state W)) by (by rewrite Hprompt).
    unfold boundStep_prompt, createStepEstimator, bind, ret, getWizard,
      readState, allocState. simpl.
    match goal with
    | |- context [promptUser ?sw ?pr ?im ?W0] =>
        apply (promptUser_caches_frame sw pr im W0)
    end. }
  subst W'. rewrite (boundStep_split _ _ _ _ _ _ _ Hprompt).
  pose proof (boundStep_result_frame prop state response W1) as Hr.
  cbv zeta in Hr. destruct Hr as (Hrw & Hrc & Hrs).
  rewrite Hrw, Hrc, Hrs, Hs. split; [exact Hw|]. split; [exact Hc | reflexivity].
Qed.

(** ** More on the estimator *)

(** X17.  A parent estimator set with [parentEstimator] adds its estimate
    of the hypothetical state to every estimate, and nothing else changes:
    for a response that is not a control signal the estimator returns what
    it returns without a parent plus the parent's value on the clone with
    the property set to the response; for a control signal it returns 0
    and the parent is not asked. *)
Theorem estimator_adds_parent_estimate :
  forall (e : StepEstimator) (response : value) (W : World) (parent : value -> Z),
    let alone := {| wizard := with_estimator None (wizard W);
                    states := states W; stepCaches := stepCaches W |} in
    let chained := {| wizard := set_parentEstimator parent (wizard W);
                      states := states W; stepCaches := stepCaches W |} in
    fst (callEstimator e response chained)
    = if isWizardControl response then 0
      else fst (callEstimator e response alone)
           + parent (Lodash.set (states W !!! est_state e) (est_prop e) response).
Proof.
  intros e response W parent alone chained.
  rewrite !callEstimator_result. unfold estimate. simpl.
  destruct (isWizardControl response); [done|].
  change (resolveNextSteps (set_parentEstimator parent (wizard W)))
    with (resolveNextSteps (with_estimator None (wizard W))).
  lia.
Qed.

(** X18.  Without a parent estimator, an estimate is never negative and
    never more than the number of bound steps. *)
Theorem estimator_bounded_by_bound_steps :
  forall (e : StepEstimator) (response : value) (W : World),
    let alone := {| wizard := with_estimator None (wizard W);
                    states := states W; stepCaches := stepCaches W |} in
    0 <= fst (callEstimator e response alone)
         <= Z.of_nat (List.length (boundSteps (wizard W))).
Proof.
  intros e response W alone. rewrite callEstimator_result. unfold estimate. simpl.
  destruct (isWizardControl response); [lia|].
  rewrite Z.add_0_r, resolveNextSteps_running, length_map.
  match goal with
  | |- context [resolve_running ?f ?c ?s ?ps ?r] =>
      pose proof (sublist_length _ _ (resolve_running_sublist f c s ps r)) as H
  end.
  rewrite length_map in H. change (boundSteps (with_estimator None (wizard W)))
    with (boundSteps (wizard W)) in *. lia.
Qed.

(** ** The toggle button *)

Section ToggleButtonFacts.

Import ToggleButton.

Context {Icon Env Control : Type} (retry : Control).

Abbreviation button := (@ToggleButton.t Icon Env).

Lemma onClick_effect (b : button) (e : Env) :
  onClick retry b e
  = (retry,
     {| _state := flip (_state b); onState := onState b; offState := offState b;
        options := options b |},
     match _state b with
     | off => call (onCallback (options b)) e
     | on => call (offCallBack (options b)) e
     end).
Proof. unfold onClick. by destruct (_state b). Qed.

Lemma clicks_effect (n : nat) :
  forall (b : button) (e : Env),
    let b' := fst (clicks retry n b e) in
    _state b' = (if Nat.even n then _state b else flip (_state b))
    /\ onState b' = onState b
    /\ offState b' = offState b
    /\ options b' = options b.
Proof.
  induction n as [|n IH]; intros b e; [done|].
  cbn [clicks]. rewrite onClick_effect.
  specialize (IH {| _state := flip (_state b); onState := onState b;
                    offState := offState b; options := options b |}
                 (match _state b with
                  | off => call (onCallback (options b)) e
                  | on => call (offCallBack (options b)) e
                  end)).
  cbv zeta in IH. destruct IH as (Hs & Hon & Hoff & Hopt).
  cbn [_state onState offState options] in *.
  split; [|done]. rewrite Hs, Nat.even_succ, <- Nat.negb_even.
  destruct (Nat.even n); simpl; [done|]. by destruct (_state b).
Qed.

(** X19.  Two clicks on a toggle button give back the button as it was,
    with its state, icon and tooltip, and have run each of the two
    callbacks that are defined once: first the one of the state the button
    was not in, then the other.  Every click returns [Retry]. *)
Theorem toggle_two_clicks_restore :
  forall (b : button) (e : Env),
    let first := onClick retry b e in
    let second := onClick retry (snd (fst first)) (snd first) in
    snd (fst second) = b
    /\ snd second
       = match state b with
         | off => call (offCallBack (options b)) (call (onCallback (options b)) e)
         | on => call (onCallback (options b)) (call (offCallBack (options b)) e)
         end
    /\ fst (fst first) = retry
    /\ fst (fst second) = retry
    /\ state (snd (fst first)) = flip (state b).
Proof.
  intros b e first second. subst second first. rewrite !onClick_effect.
  unfold state. destruct b as [s f g o]. simpl. by destruct s.
Qed.

(** X20.  After any number of clicks, a toggle button is in its first
    state when the number is even and in the other state when it is odd,
    and it shows the icon and the tooltip of the face of that state; a
    button made without an initial state starts [off]. *)
Theorem toggle_state_follows_parity :
  forall (n : nat) (onFace offFace : @Face Icon)
         (opts : option (@ToggleButtonOptions Env)) (e : Env),
    let b := new onFace offFace opts in
    let b' := fst (clicks retry n b e) in
    state b = default off (opts ≫= initState)
    /\ state b' = (if Nat.even n then state b else flip (state b))
    /\ get_iconPath b' = iconPath (match state b' with on => onFace | off => offFace end)
    /\ get_tooltip b' = tooltip (match state b' with on => onFace | off => offFace end).
Proof.
  intros n onFace offFace opts e b b'.
  pose proof (clicks_effect n b e) as H. cbv zeta in H. fold b' in H.
  destruct H as (Hs & Hon & Hoff & _).
  split; [by destruct opts|]. split; [exact Hs|].
  unfold get_iconPath, get_tooltip, state. rewrite Hon, Hoff.
  by destruct (_state b').
Qed.

End ToggleButtonFacts.
